(** * The inventory transaction engine of the warehouse backend

    A shallow embedding of [backend/src/index.js] (the Express handlers
    [POST /production], [POST /purchases], [POST /sales] and
    [GET /alerts/active], with their helpers [getWarehouseId],
    [getProductByCode], [getInv] and [applyTx]) and of [setInv] from the
    seed script.

    The Prisma store is an explicit record of tables.  Every handler is a
    computation in a state-and-failure monad over that record: a write that
    has happened stays in the store when a later statement fails, exactly
    as in the source, which opens no database transaction.

    Quantities ([qty], [kgPerLiter], [minQty]) are exact rationals and row
    identifiers are integers: the rounding of JavaScript numbers is not
    modelled. *)

From Stdlib Require Import QArith Lqa ZArith.
From stdpp Require Import gmap strings list fin_maps pretty.

Close Scope Q_scope.
Local Open Scope Z_scope.

(** ** Tables *)

(** Modelled from the spec: the column types of the tables, which the
    Prisma schema declares and the sources do not contain.  The quantity
    columns ([qty], [kgPerLiter], [minQty]) hold the "numbers" of the
    specification, taken as exact rationals; the [id] columns hold
    integers. *)
Abbreviation quantity := Q (only parsing).
Abbreviation rowId := Z (only parsing).

(** [warehouse] and [product] rows are found by their unique [code]
    ([findUnique({ where: { code } })]); the tables are therefore maps from
    the code to the rest of the row. *)
Record warehouse := mkWarehouse {
  wh_id : rowId;
  wh_name : string }.

Record product := mkProduct {
  p_id : rowId;
  p_name : string;
  p_type : string;
  p_unit : string }.

Record formulaPerLiter := mkFormula {
  f_productCode : string;
  f_rawCode : string;
  f_kgPerLiter : quantity }.

Record alertRule := mkAlertRule {
  r_warehouseCode : string;
  r_productCode : string;
  r_minQty : quantity }.

Inductive txKind := PRODUCTION | PURCHASE | SALE.

Record inventoryTx := mkTx {
  tx_txType : txKind;
  tx_warehouseId : rowId;
  tx_productId : rowId;
  tx_qty : quantity;
  tx_userId : rowId }.

(** The store.  [inventory_tbl] is keyed by the compound unique key
    [warehouseId_productId]; [inventoryTx_tbl] grows at its end. *)
Record db := mkDb {
  warehouse_tbl : gmap string warehouse;
  product_tbl : gmap string product;
  formulaPerLiter_tbl : list formulaPerLiter;
  alertRule_tbl : list alertRule;
  inventory_tbl : gmap (rowId * rowId) quantity;
  inventoryTx_tbl : list inventoryTx }.

(** ** Failures

    The handlers fail in two ways: an [Error] thrown by a helper, or a
    [400] response.  The constructors carry what the source puts in the
    message or in [details].

    - [throw new Error("Warehouse not found: " + code)]: [UnknownWarehouse]
    - [throw new Error("Product not found: " + code)]: [UnknownProduct]
    - [400 "Formula not defined"]: [FormulaNotDefined]
    - [400] with [details: { needKg, availKg }]: [InsufficientRawMaterial]
    - [400] with [details: { need, available }] in production:
      [InsufficientContainers]
    - the two [400] of the sale handler: [InsufficientPackagedStock] and
      [InsufficientLiquidStock], with [details: { available, need }]
    - the [400] of the purchase loop: [DisallowedPurchaseTarget]
    - [400] after [schema.safeParse]: [InvalidBody]
    - the [Error] thrown by [setInv] of the seed: [SeedNotFound]. *)
Inductive failure :=
| InvalidBody
| UnknownWarehouse (code : string)
| UnknownProduct (code : string)
| FormulaNotDefined
| InsufficientRawMaterial (rawCode : string) (needKg availKg : Q)
| InsufficientContainers (gallonSize : Z) (need : Z) (available : Q)
| InsufficientPackagedStock (available : Q) (need : Z)
| InsufficientLiquidStock (available : Q) (need : Z)
| DisallowedPurchaseTarget (code : string)
| SeedNotFound (warehouseCode productCode : string).

Inductive outcome (A : Type) :=
| Ok (a : A)
| Err (e : failure).
Arguments Ok {A} a.
Arguments Err {A} e.

(** ** The monad of the handlers *)

Definition M (A : Type) : Type := db → outcome A * db.

#[export] Instance M_ret : MRet M := λ A a d, (Ok a, d).

#[export] Instance M_bind : MBind M := λ A B f m d,
  match m d with
  | (Ok a, d') => f a d'
  | (Err e, d') => (Err e, d')
  end.

Definition failWith {A : Type} (e : failure) : M A := λ d, (Err e, d).

(** JavaScript [a < b] on numbers. *)
Definition Qltb (a b : Q) : bool := negb (Qle_bool b a).

(** ** Helpers of [index.js] *)

Definition getWarehouseId (code : string) : M Z := λ d,
  match warehouse_tbl d !! code with
  | Some wh => (Ok (wh_id wh), d)
  | None => (Err (UnknownWarehouse code), d)
  end.

Definition getProductByCode (code : string) : M product := λ d,
  match product_tbl d !! code with
  | Some p => (Ok p, d)
  | None => (Err (UnknownProduct code), d)
  end.

Definition getInv (warehouseId productId : Z) : M Q := λ d,
  match inventory_tbl d !! (warehouseId, productId) with
  | Some q => (Ok q, d)
  | None => (Ok 0%Q, d)
  end.

(** [prisma.inventoryTx.create] *)
Definition inventoryTx_create (tx : inventoryTx) (d : db) : db :=
  mkDb (warehouse_tbl d) (product_tbl d) (formulaPerLiter_tbl d)
       (alertRule_tbl d) (inventory_tbl d) (inventoryTx_tbl d ++ [tx]).

(** [prisma.inventory.upsert] with [update: { qty: { increment: qty } }]
    and [create: { warehouseId, productId, qty }]. *)
Definition inventory_upsert_increment (warehouseId productId : Z) (qty : Q)
    (d : db) : db :=
  let key := (warehouseId, productId) in
  let row := match inventory_tbl d !! key with
             | Some q => (q + qty)%Q
             | None => qty
             end in
  mkDb (warehouse_tbl d) (product_tbl d) (formulaPerLiter_tbl d)
       (alertRule_tbl d) (<[key := row]> (inventory_tbl d)) (inventoryTx_tbl d).

Definition applyTx (txType : txKind) (warehouseId productId : Z) (qty : Q)
    (userId : Z) : M unit := λ d,
  let d1 := inventoryTx_create (mkTx txType warehouseId productId qty userId) d in
  (Ok tt, inventory_upsert_increment warehouseId productId qty d1).

(** ** [POST /production] *)

Record productionBody := mkProductionBody {
  pb_productCode : string;
  pb_gallonSize : Z;
  pb_count : Z }.

Record consumedItem := mkConsumed {
  c_raw : string;
  c_kg : Q }.

Record productionResponse := mkProductionResponse {
  pr_productCode : string;
  pr_gallonSize : Z;
  pr_count : Z;
  pr_liters : Z;
  pr_consumed : list consumedItem }.

(** The [zod] schema of the body: a non-empty string, one of the literals
    5, 10, 20, and a positive integer. *)
Definition nonEmpty (s : string) : bool :=
  match s with EmptyString => false | _ => true end.

Definition isGallonSize (g : Z) : bool :=
  (g =? 5) || (g =? 10) || (g =? 20).

Definition productionSchema (b : productionBody) : bool :=
  nonEmpty (pb_productCode b) && isGallonSize (pb_gallonSize b)
  && (0 <? pb_count b).

(** [prisma.formulaPerLiter.findMany({ where: { productCode } })] *)
Definition findFormula (productCode : string) : M (list formulaPerLiter) := λ d,
  (Ok (filter (λ f, f_productCode f = productCode) (formulaPerLiter_tbl d)), d).

(** The first loop over [formula]: "Check raw material stock (kg)". *)
Fixpoint checkRawStock (RAW_WH : Z) (liters : Z)
    (formula : list formulaPerLiter) : M unit :=
  match formula with
  | [] => mret tt
  | f :: rest =>
      raw ← getProductByCode (f_rawCode f);
      let needKg := (f_kgPerLiter f * inject_Z liters)%Q in
      avail ← getInv RAW_WH (p_id raw);
      if Qltb avail needKg
      then failWith (InsufficientRawMaterial (f_rawCode f) needKg avail)
      else checkRawStock RAW_WH liters rest
  end.

(** The second loop over [formula]: "Consume raw materials"; [consumed] is
    the array the loop pushes to. *)
Fixpoint consumeRaw (RAW_WH : Z) (liters : Z) (userId : Z)
    (formula : list formulaPerLiter) (consumed : list consumedItem)
    : M (list consumedItem) :=
  match formula with
  | [] => mret consumed
  | f :: rest =>
      raw ← getProductByCode (f_rawCode f);
      let needKg := (f_kgPerLiter f * inject_Z liters)%Q in
      _ ← applyTx PRODUCTION RAW_WH (p_id raw) (- needKg)%Q userId;
      consumeRaw RAW_WH liters userId rest (consumed ++ [mkConsumed (f_rawCode f) needKg])
  end.

Definition gallonCode (gallonSize : Z) : string :=
  "GALLON_" +:+ pretty gallonSize.

Definition packCode (productCode : string) (gallonSize : Z) : string :=
  productCode +:+ "_PACK_" +:+ pretty gallonSize.

Definition litersCode (productCode : string) : string :=
  productCode +:+ "_LITERS".

Definition production (userId : Z) (body : productionBody)
    : M productionResponse :=
  if negb (productionSchema body) then failWith InvalidBody else
  let productCode := pb_productCode body in
  let gallonSize := pb_gallonSize body in
  let count := pb_count body in
  let liters := count * gallonSize in
  RAW_WH ← getWarehouseId "RAW_WH";
  GAL_WH ← getWarehouseId "GAL_WH";
  FG_WH ← getWarehouseId "FG_WH";
  formula ← findFormula productCode;
  if (length formula =? 0)%nat then failWith FormulaNotDefined else
  _ ← checkRawStock RAW_WH liters formula;
  gallonProd ← getProductByCode (gallonCode gallonSize);
  availG ← getInv GAL_WH (p_id gallonProd);
  if Qltb availG (inject_Z count)
  then failWith (InsufficientContainers gallonSize count availG) else
  consumed ← consumeRaw RAW_WH liters userId formula [];
  _ ← applyTx PRODUCTION GAL_WH (p_id gallonProd) (- inject_Z count)%Q userId;
  pack ← getProductByCode (packCode productCode gallonSize);
  litersProd ← getProductByCode (litersCode productCode);
  _ ← applyTx PRODUCTION FG_WH (p_id pack) (inject_Z count) userId;
  _ ← applyTx PRODUCTION FG_WH (p_id litersProd) (inject_Z liters) userId;
  mret (mkProductionResponse productCode gallonSize count liters consumed).

(** ** [POST /purchases] *)

Record purchaseItem := mkItem {
  it_code : string;
  it_qty : Q }.

Definition purchasesSchema (items : list purchaseItem) : bool :=
  forallb (λ it, nonEmpty (it_code it) && Qltb 0 (it_qty it)) items
  && (1 <=? length items)%nat.

(** "Route to correct warehouse": [RAW_WH], [GAL_WH] or [null]. *)
Definition routeWarehouse (RAW_WH GAL_WH : Z) (p : product) : option Z :=
  if String.eqb (p_type p) "RAW" then Some RAW_WH
  else if String.eqb (p_type p) "GALLON" then Some GAL_WH
  else None.

(** The loop over [parsed.data.items].  [!whId] holds for [null] and for
    the number 0. *)
Fixpoint purchaseItems (RAW_WH GAL_WH userId : Z) (items : list purchaseItem)
    : M unit :=
  match items with
  | [] => mret tt
  | it :: rest =>
      p ← getProductByCode (it_code it);
      match routeWarehouse RAW_WH GAL_WH p with
      | Some whId =>
          if whId =? 0 then failWith (DisallowedPurchaseTarget (it_code it)) else
          _ ← applyTx PURCHASE whId (p_id p) (it_qty it) userId;
          purchaseItems RAW_WH GAL_WH userId rest
      | None => failWith (DisallowedPurchaseTarget (it_code it))
      end
  end.

Definition purchases (userId : Z) (items : list purchaseItem) : M unit :=
  if negb (purchasesSchema items) then failWith InvalidBody else
  RAW_WH ← getWarehouseId "RAW_WH";
  GAL_WH ← getWarehouseId "GAL_WH";
  purchaseItems RAW_WH GAL_WH userId items.

(** ** [POST /sales] *)

Record saleBody := mkSaleBody {
  sb_productCode : string;
  sb_gallonSize : Z;
  sb_count : Z }.

Record saleResponse := mkSaleResponse {
  sr_productCode : string;
  sr_gallonSize : Z;
  sr_count : Z;
  sr_liters : Z }.

Definition saleSchema (b : saleBody) : bool :=
  nonEmpty (sb_productCode b) && isGallonSize (sb_gallonSize b)
  && (0 <? sb_count b).

Definition sales (userId : Z) (body : saleBody) : M saleResponse :=
  if negb (saleSchema body) then failWith InvalidBody else
  let productCode := sb_productCode body in
  let gallonSize := sb_gallonSize body in
  let count := sb_count body in
  let liters := count * gallonSize in
  FG_WH ← getWarehouseId "FG_WH";
  pack ← getProductByCode (packCode productCode gallonSize);
  litersProd ← getProductByCode (litersCode productCode);
  availPack ← getInv FG_WH (p_id pack);
  availLit ← getInv FG_WH (p_id litersProd);
  if Qltb availPack (inject_Z count)
  then failWith (InsufficientPackagedStock availPack count) else
  if Qltb availLit (inject_Z liters)
  then failWith (InsufficientLiquidStock availLit liters) else
  _ ← applyTx SALE FG_WH (p_id pack) (- inject_Z count)%Q userId;
  _ ← applyTx SALE FG_WH (p_id litersProd) (- inject_Z liters)%Q userId;
  mret (mkSaleResponse productCode gallonSize count liters).

(** ** [GET /alerts/active] *)

Record alert := mkAlert {
  a_warehouse : string;
  a_product : string;
  a_current : Q;
  a_min : Q;
  a_unit : string }.

(** The loop over [rules]; [results] is the array the loop pushes to.  A
    rule whose warehouse or product is not found takes the [continue].
    [pr.code] is the code the product was found by. *)
Fixpoint alertRules (rules : list alertRule) (results : list alert)
    : M (list alert) :=
  match rules with
  | [] => mret results
  | r :: rest => λ d,
      match warehouse_tbl d !! r_warehouseCode r,
            product_tbl d !! r_productCode r with
      | Some wh, Some pr =>
          let current := inventory_tbl d !! (wh_id wh, p_id pr) in
          let qty := match current with Some q => q | None => 0%Q end in
          if Qltb qty (r_minQty r)
          then alertRules rest
                 (results ++ [mkAlert (wh_name wh) (r_productCode r) qty
                                      (r_minQty r) (p_unit pr)]) d
          else alertRules rest results d
      | _, _ => alertRules rest results d
      end
  end.

Definition alertsActive : M (list alert) := λ d,
  alertRules (alertRule_tbl d) [] d.

(** ** [setInv] of the seed script *)

Definition setInv (warehouseCode productCode : string) (qty : Q) : M unit := λ d,
  match warehouse_tbl d !! warehouseCode, product_tbl d !! productCode with
  | Some wh, Some pr =>
      (Ok tt,
       mkDb (warehouse_tbl d) (product_tbl d) (formulaPerLiter_tbl d)
            (alertRule_tbl d)
            (<[(wh_id wh, p_id pr) := qty]> (inventory_tbl d))
            (inventoryTx_tbl d))
  | _, _ => (Err (SeedNotFound warehouseCode productCode), d)
  end.

(** ** The alert rules and the initial inventory of [main]

    [prisma.alertRule.upsert] by the compound unique key
    [warehouseCode_productCode]: the rule of the key gets the threshold, or
    a new rule is added at the end of the table. *)
Definition alertRule_upsert (warehouseCode productCode : string) (minQty : Q)
    : M unit := λ d,
  let hit (r : alertRule) :=
    String.eqb (r_warehouseCode r) warehouseCode
    && String.eqb (r_productCode r) productCode in
  (Ok tt,
   mkDb (warehouse_tbl d) (product_tbl d) (formulaPerLiter_tbl d)
        (if existsb hit (alertRule_tbl d)
         then (λ r, if hit r
                    then mkAlertRule (r_warehouseCode r) (r_productCode r) minQty
                    else r) <$> alertRule_tbl d
         else alertRule_tbl d ++ [mkAlertRule warehouseCode productCode minQty])
        (inventory_tbl d) (inventoryTx_tbl d)).

(** [for (const code of codes) await body(code)] *)
Fixpoint forEach {A : Type} (body : A → M unit) (l : list A) : M unit :=
  match l with
  | [] => mret tt
  | x :: rest => _ ← body x; forEach body rest
  end.

(** Steps 6 and 7 of [main]: the alert rules, then the initial inventory
    at the thresholds of the rules. *)
Definition seedAlertsAndInventory : M unit :=
  _ ← forEach (λ code, alertRule_upsert "RAW_WH" code (10000 # 1))
        ["S"; "P"; "U"; "C"; "N"];
  _ ← forEach (λ code, alertRule_upsert "GAL_WH" code (2000 # 1))
        ["GALLON_5"; "GALLON_10"; "GALLON_20"];
  _ ← forEach (λ code, setInv "RAW_WH" code (10000 # 1))
        ["S"; "P"; "U"; "C"; "N"];
  forEach (λ code, setInv "GAL_WH" code (2000 # 1))
    ["GALLON_5"; "GALLON_10"; "GALLON_20"].

(** * The HTTP layer of [index.js]

    [jsonwebtoken] and [bcrypt] are libraries outside the sources: the
    functions below take [jwt.verify] (with the secret, at the time of the
    request: [None] when it throws), [jwt.sign] and [bcrypt.compare] as
    arguments. *)

(** The payload [signToken] signs: [{ sub, role, username }]. *)
Record jwtPayload := mkPayload {
  jwt_sub : Z;
  jwt_role : string;
  jwt_username : string }.

(** What a route answers: the JSON of a success, a status with an
    [error] message sent by a middleware or by the login route, or the
    failure of an engine handler. *)
Inductive reply (A : Type) :=
| Answer (a : A)
| Refused (status : Z) (error : string)
| Failed (e : failure).
Arguments Answer {A} a.
Arguments Refused {A} status error.
Arguments Failed {A} e.

(** [h.slice(n)] *)
Fixpoint slice (n : nat) (s : string) : string :=
  match n, s with
  | O, _ => s
  | S n', String _ rest => slice n' rest
  | S _, EmptyString => EmptyString
  end.

(** [auth]: the header is [req.headers.authorization || ""]; [!token]
    holds for [null] and for the empty string. *)
Definition auth (jwtVerify : string → option jwtPayload)
    (authorization : option string) : reply jwtPayload :=
  let h := match authorization with Some h => h | None => EmptyString end in
  let token := if String.prefix "Bearer " h then Some (slice 7 h) else None in
  match token with
  | None => Refused 401 "Unauthorized"
  | Some t =>
      if negb (nonEmpty t) then Refused 401 "Unauthorized" else
      match jwtVerify t with
      | Some payload => Answer payload
      | None => Refused 401 "Invalid token"
      end
  end.

(** [requireRole(...roles)], applied to [req.user]. *)
Definition requireRole (roles : list string) (user : jwtPayload) : reply unit :=
  if negb (nonEmpty (jwt_role user)) then Refused 401 "Unauthorized"
  else if negb (bool_decide (jwt_role user ∈ roles)) then Refused 403 "Forbidden"
  else Answer tt.

(** A handler behind its middlewares:
    [app.post(path, auth, requireRole(...), handler)], or
    [app.get(path, auth, handler)] when [roles] is [None].  The handler
    reads [Number(req.user.sub)]. *)
Definition guarded {A : Type} (jwtVerify : string → option jwtPayload)
    (roles : option (list string)) (authorization : option string)
    (handler : Z → M A) (d : db) : reply A * db :=
  match auth jwtVerify authorization with
  | Answer user =>
      match match roles with
            | Some rs => requireRole rs user
            | None => Answer tt
            end with
      | Answer _ =>
          match handler (jwt_sub user) d with
          | (Ok a, d') => (Answer a, d')
          | (Err e, d') => (Failed e, d')
          end
      | Refused status error => (Refused status error, d)
      | Failed e => (Failed e, d)
      end
  | Refused status error => (Refused status error, d)
  | Failed e => (Failed e, d)
  end.

Definition postProduction jwtVerify authorization (body : productionBody) :=
  guarded jwtVerify (Some ["warehouse"; "admin"]) authorization
    (λ userId, production userId body).

Definition postPurchases jwtVerify authorization (items : list purchaseItem) :=
  guarded jwtVerify (Some ["supply"; "admin"]) authorization
    (λ userId, purchases userId items).

Definition postSales jwtVerify authorization (body : saleBody) :=
  guarded jwtVerify (Some ["sales"; "admin"]) authorization
    (λ userId, sales userId body).

Definition getAlertsActive jwtVerify authorization :=
  guarded jwtVerify None authorization (λ _, alertsActive).

(** ** [POST /auth/login]

    The [user] table is found by its unique [username]; it is a map from
    the username to the rest of the row. *)
Record user := mkUser {
  u_id : Z;
  u_name : string;
  u_role : string;
  u_passwordHash : string }.

Record loginBody := mkLoginBody {
  lb_username : string;
  lb_password : string }.

Record loginResponse := mkLoginResponse {
  lr_accessToken : string;
  lr_role : string;
  lr_username : string;
  lr_name : string }.

(** [signToken(user)], for the user found by [username]. *)
Definition signToken (jwtSign : jwtPayload → string) (username : string)
    (u : user) : string :=
  jwtSign (mkPayload (u_id u) (u_role u) username).

Definition login (bcryptCompare : string → string → bool)
    (jwtSign : jwtPayload → string) (users : gmap string user)
    (body : loginBody) : reply loginResponse :=
  if negb (nonEmpty (lb_username body) && nonEmpty (lb_password body))
  then Refused 400 "Invalid body" else
  match users !! lb_username body with
  | None => Refused 401 "Invalid credentials"
  | Some u =>
      if negb (bcryptCompare (lb_password body) (u_passwordHash u))
      then Refused 401 "Invalid credentials"
      else Answer (mkLoginResponse (signToken jwtSign (lb_username body) u)
                     (u_role u) (lb_username body) (u_name u))
  end.

(** A verifier for examples: one token, of a user with a given role. *)
Definition toyVerify (role : string) (token : string) : option jwtPayload :=
  if String.eqb token "t0k3n" then Some (mkPayload 3 role "someone") else None.

(** * [GET /inventory/summary] *)

(** A row of [prisma.inventory.findMany({ include: { product: true,
    warehouse: true } })]: the quantity with the code of the warehouse and
    the code and type of the product. *)
Record inventoryRow := mkInventoryRow {
  row_warehouse : string;
  row_code : string;
  row_type : string;
  row_qty : Q }.

Definition warehouseById (d : db) (id : Z) : option (string * warehouse) :=
  head (filter (λ cw, wh_id cw.2 = id) (map_to_list (warehouse_tbl d))).

Definition productById (d : db) (id : Z) : option (string * product) :=
  head (filter (λ cp, p_id cp.2 = id) (map_to_list (product_tbl d))).

(** One element per inventory row, in the order in which the map lists
    its rows (the source asks for no order).  The foreign keys of the
    schema leave no row without its warehouse and product; such a row would
    be left out here. *)
Definition inventoryFindMany (d : db) : list inventoryRow :=
  omap (λ kq, match warehouseById d kq.1.1, productById d kq.1.2 with
              | Some cw, Some cp =>
                  Some (mkInventoryRow cw.1 cp.1 (p_type cp.2) kq.2)
              | _, _ => None
              end)
       (map_to_list (inventory_tbl d)).

(** [[A-Z0-9]] *)
Definition isFamilyChar (c : Ascii.ascii) : bool :=
  let n := Ascii.nat_of_ascii c in
  ((65 <=? n)%nat && (n <=? 90)%nat) || ((48 <=? n)%nat && (n <=? 57)%nat).

Fixpoint allFamilyChars (s : string) : bool :=
  match s with
  | EmptyString => true
  | String c rest => isFamilyChar c && allFamilyChars rest
  end.

(** The part of [s] before [suffix], when [s] ends with it. *)
Fixpoint stripSuffix (suffix s : string) : option string :=
  if String.eqb s suffix then Some EmptyString else
  match s with
  | EmptyString => None
  | String c rest => String c <$> stripSuffix suffix rest
  end.

(** [code.endsWith(suffix)] *)
Fixpoint endsWith (suffix s : string) : bool :=
  String.eqb s suffix ||
  match s with
  | EmptyString => false
  | String _ rest => endsWith suffix rest
  end.

(** The first group of
    [code.match(/^([A-Z0-9]+)_(PACK_(5|10|20)|LITERS)$/)]: the code without
    one of the four endings, when what is left is a non-empty word of
    capital letters and digits. *)
Definition familyBefore (suffix code : string) : option string :=
  match stripSuffix suffix code with
  | Some F => if nonEmpty F && allFamilyChars F then Some F else None
  | None => None
  end.

Definition matchFamily (code : string) : option string :=
  match familyBefore "_PACK_5" code with
  | Some F => Some F
  | None =>
      match familyBefore "_PACK_10" code with
      | Some F => Some F
      | None =>
          match familyBefore "_PACK_20" code with
          | Some F => Some F
          | None => familyBefore "_LITERS" code
          end
      end
  end.

(** An object of [productsMap]:
    [{ code, liters, pack: { "5", "10", "20" } }]. *)
Record productSummary := mkProductSummary {
  ps_code : string;
  ps_liters : Q;
  ps_pack5 : Q;
  ps_pack10 : Q;
  ps_pack20 : Q }.

(** What the loop builds: the object [rawKg], the object [gallonsEmpty]
    and [productsMap], whose objects are kept in the order of their
    insertion. *)
Record summary := mkSummary {
  rawKg : gmap string Q;
  gallonsEmpty5 : Q;
  gallonsEmpty10 : Q;
  gallonsEmpty20 : Q;
  products : list productSummary }.

Definition emptySummary : summary := mkSummary ∅ 0 0 0 [].

(** [productsMap.has(pcode)] *)
Definition mapHas (pcode : string) (m : list productSummary) : bool :=
  existsb (λ o, String.eqb (ps_code o) pcode) m.

(** The four assignments to the object of the family, each under its
    [code.endsWith(...)]. *)
Definition setFields (code : string) (qty : Q) (o : productSummary) : productSummary :=
  let o1 := if endsWith "_LITERS" code
            then mkProductSummary (ps_code o) qty (ps_pack5 o) (ps_pack10 o) (ps_pack20 o)
            else o in
  let o2 := if endsWith "_PACK_5" code
            then mkProductSummary (ps_code o1) (ps_liters o1) qty (ps_pack10 o1) (ps_pack20 o1)
            else o1 in
  let o3 := if endsWith "_PACK_10" code
            then mkProductSummary (ps_code o2) (ps_liters o2) (ps_pack5 o2) qty (ps_pack20 o2)
            else o2 in
  if endsWith "_PACK_20" code
  then mkProductSummary (ps_code o3) (ps_liters o3) (ps_pack5 o3) (ps_pack10 o3) qty
  else o3.

(** The body of the loop over the rows. *)
Definition summaryRow (acc : summary) (row : inventoryRow) : summary :=
  let code := row_code row in
  let wh := row_warehouse row in
  let qty := row_qty row in
  let acc1 :=
    if String.eqb wh "RAW_WH" && String.eqb (row_type row) "RAW"
    then mkSummary (<[code := qty]> (rawKg acc)) (gallonsEmpty5 acc)
                   (gallonsEmpty10 acc) (gallonsEmpty20 acc) (products acc)
    else acc in
  let acc2 :=
    if String.eqb wh "GAL_WH" && String.eqb (row_type row) "GALLON"
    then mkSummary (rawKg acc1)
           (if String.eqb code "GALLON_5" then qty else gallonsEmpty5 acc1)
           (if String.eqb code "GALLON_10" then qty else gallonsEmpty10 acc1)
           (if String.eqb code "GALLON_20" then qty else gallonsEmpty20 acc1)
           (products acc1)
    else acc1 in
  if String.eqb wh "FG_WH" then
    match matchFamily code with
    | None => acc2
    | Some pcode =>
        let m := if mapHas pcode (products acc2) then products acc2
                 else products acc2 ++ [mkProductSummary pcode 0 0 0 0] in
        mkSummary (rawKg acc2) (gallonsEmpty5 acc2) (gallonsEmpty10 acc2)
          (gallonsEmpty20 acc2)
          ((λ o, if String.eqb (ps_code o) pcode then setFields code qty o else o) <$> m)
    end
  else acc2.

(** [array.sort((a, b) => a.code.localeCompare(b.code))]: the comparison
    of the locale is an argument; the sort is the stable one. *)
Fixpoint insertByCode (localeCompare : string → string → Z)
    (x : productSummary) (l : list productSummary) : list productSummary :=
  match l with
  | [] => [x]
  | y :: rest =>
      if localeCompare (ps_code x) (ps_code y) <=? 0 then x :: y :: rest
      else y :: insertByCode localeCompare x rest
  end.

Definition sortByCode (localeCompare : string → string → Z)
    (l : list productSummary) : list productSummary :=
  foldr (insertByCode localeCompare) [] l.

Definition findManyInventory : M (list inventoryRow) := λ d,
  (Ok (inventoryFindMany d), d).

Definition inventorySummary (localeCompare : string → string → Z) : M summary :=
  RAW_WH ← getWarehouseId "RAW_WH";
  GAL_WH ← getWarehouseId "GAL_WH";
  FG_WH ← getWarehouseId "FG_WH";
  inv ← findManyInventory;
  let acc := foldl summaryRow emptySummary inv in
  mret (mkSummary (rawKg acc) (gallonsEmpty5 acc) (gallonsEmpty10 acc)
          (gallonsEmpty20 acc) (sortByCode localeCompare (products acc))).

(** A comparison for examples: the order of the character codes. *)
Definition codeCompare (a b : string) : Z :=
  if String.eqb a b then 0 else if String.leb a b then -1 else 1.

(** * Vocabulary of the statements *)

(** ** Sequences of requests

    The engine as a transition system: a request is one call of a handler,
    and the store after it is whatever the handler left, also when it
    failed. *)

Inductive request :=
| Production (userId : Z) (body : productionBody)
| Purchase (userId : Z) (items : list purchaseItem)
| Sale (userId : Z) (body : saleBody).

Definition step (d : db) (r : request) : db :=
  match r with
  | Production u b => (production u b d).2
  | Purchase u items => (purchases u items d).2
  | Sale u b => (sales u b d).2
  end.

Definition run (rs : list request) (d : db) : db := foldl step d rs.

(** ** Balances and ledger sums *)

(** The balance of a (warehouse, product) pair, 0 without a row. *)
Definition currentQty (d : db) (warehouseId productId : Z) : Q :=
  match inventory_tbl d !! (warehouseId, productId) with
  | Some q => q
  | None => 0%Q
  end.

Definition txDelta (warehouseId productId : Z) (tx : inventoryTx) : Q :=
  if decide ((tx_warehouseId tx, tx_productId tx) = (warehouseId, productId))
  then tx_qty tx else 0%Q.

(** The sum of the quantities of the ledger entries of one pair. *)
Fixpoint deltaSum (warehouseId productId : Z) (txs : list inventoryTx) : Q :=
  match txs with
  | [] => 0%Q
  | tx :: rest => (txDelta warehouseId productId tx + deltaSum warehouseId productId rest)%Q
  end.

Definition ledgerSum (d : db) (warehouseId productId : Z) : Q :=
  deltaSum warehouseId productId (inventoryTx_tbl d).

(** What one [applyTx] does to the store, and a series of them. *)
Definition commit (d : db) (tx : inventoryTx) : db :=
  inventory_upsert_increment (tx_warehouseId tx) (tx_productId tx) (tx_qty tx)
    (inventoryTx_create tx d).

Definition commits (txs : list inventoryTx) (d : db) : db := foldl commit d txs.

(** The catalog and the alert rules of a store. *)
Definition sameCatalog (d d' : db) : Prop :=
  warehouse_tbl d' = warehouse_tbl d ∧ product_tbl d' = product_tbl d ∧
  formulaPerLiter_tbl d' = formulaPerLiter_tbl d ∧
  alertRule_tbl d' = alertRule_tbl d.

(** ** Integrity constraints of the schema

    [id] is the primary key of [warehouse] and of [product], and
    [productCode_rawCode] is a unique key of [formulaPerLiter] (the seed
    script upserts through it). *)
Definition uniqueIds {A : Type} (id : A → Z) (t : gmap string A) : Prop :=
  NoDup (id <$> (map_to_list t).*2).

Definition uniqueFormulaKeys (fs : list formulaPerLiter) : Prop :=
  NoDup ((λ f, (f_productCode f, f_rawCode f)) <$> fs).

Definition wellFormed (d : db) : Prop :=
  uniqueIds wh_id (warehouse_tbl d) ∧ uniqueIds p_id (product_tbl d) ∧
  uniqueFormulaKeys (formulaPerLiter_tbl d).

#[export] Instance wellFormed_dec d : Decision (wellFormed d).
Proof. unfold wellFormed, uniqueIds, uniqueFormulaKeys. apply _. Defined.

(** ** Resolved codes and the entries of the handlers *)

(** The identifier a product code resolves to (0 when it does not). *)
Definition productId (d : db) (code : string) : Z :=
  match product_tbl d !! code with
  | Some p => p_id p
  | None => 0
  end.

(** The entries of the "Consume raw materials" loop. *)
Definition rawTxs (d : db) (RAW_WH liters userId : Z)
    (formula : list formulaPerLiter) : list inventoryTx :=
  (λ f, mkTx PRODUCTION RAW_WH (productId d (f_rawCode f))
             (- (f_kgPerLiter f * inject_Z liters))%Q userId) <$> formula.

Definition consumedOf (liters : Z) (f : formulaPerLiter) : consumedItem :=
  mkConsumed (f_rawCode f) (f_kgPerLiter f * inject_Z liters)%Q.

Definition resolves (d : db) (code : string) : Prop :=
  is_Some (product_tbl d !! code).

(** The identifier a warehouse code resolves to (0 when it does not). *)
Definition warehouseId (d : db) (code : string) : Z :=
  match warehouse_tbl d !! code with
  | Some wh => wh_id wh
  | None => 0
  end.

Definition hasWarehouse (d : db) (code : string) : Prop :=
  is_Some (warehouse_tbl d !! code).

Definition formulaOf (d : db) (productCode : string) : list formulaPerLiter :=
  filter (λ f, f_productCode f = productCode) (formulaPerLiter_tbl d).

(** The entries of a production, in the order of the handler: raw
    materials, empty gallons, packs, liters. *)
Definition consumptionTxs (d : db) (u : Z) (b : productionBody) : list inventoryTx :=
  let liters := pb_count b * pb_gallonSize b in
  rawTxs d (warehouseId d "RAW_WH") liters u (formulaOf d (pb_productCode b))
  ++ [mkTx PRODUCTION (warehouseId d "GAL_WH")
           (productId d (gallonCode (pb_gallonSize b)))
           (- inject_Z (pb_count b))%Q u].

Definition outputTxs (d : db) (u : Z) (b : productionBody) : list inventoryTx :=
  let liters := pb_count b * pb_gallonSize b in
  [mkTx PRODUCTION (warehouseId d "FG_WH")
        (productId d (packCode (pb_productCode b) (pb_gallonSize b)))
        (inject_Z (pb_count b)) u;
   mkTx PRODUCTION (warehouseId d "FG_WH")
        (productId d (litersCode (pb_productCode b)))
        (inject_Z liters) u].

(** What the pre-checks of a production establish. *)
Definition productionChecked (d : db) (b : productionBody) : Prop :=
  let liters := pb_count b * pb_gallonSize b in
  productionSchema b = true ∧
  hasWarehouse d "RAW_WH" ∧ hasWarehouse d "GAL_WH" ∧ hasWarehouse d "FG_WH" ∧
  formulaOf d (pb_productCode b) ≠ [] ∧
  Forall (λ f, resolves d (f_rawCode f) ∧
               (f_kgPerLiter f * inject_Z liters
                <= currentQty d (warehouseId d "RAW_WH") (productId d (f_rawCode f)))%Q)
         (formulaOf d (pb_productCode b)) ∧
  resolves d (gallonCode (pb_gallonSize b)) ∧
  (inject_Z (pb_count b)
   <= currentQty d (warehouseId d "GAL_WH") (productId d (gallonCode (pb_gallonSize b))))%Q.

Fixpoint lastChar (s : string) : option Ascii.ascii :=
  match s with
  | EmptyString => None
  | String c EmptyString => Some c
  | String _ rest => lastChar rest
  end.

Definition gallonSizes : list Z := [5; 10; 20].

Definition saleTxs (d : db) (u : Z) (b : saleBody) : list inventoryTx :=
  [mkTx SALE (warehouseId d "FG_WH")
        (productId d (packCode (sb_productCode b) (sb_gallonSize b)))
        (- inject_Z (sb_count b))%Q u;
   mkTx SALE (warehouseId d "FG_WH")
        (productId d (litersCode (sb_productCode b)))
        (- inject_Z (sb_count b * sb_gallonSize b))%Q u].

(** The body is valid and every code the handler looks up is found. *)
Definition saleResolved (d : db) (b : saleBody) : Prop :=
  saleSchema b = true ∧ hasWarehouse d "FG_WH" ∧
  resolves d (packCode (sb_productCode b) (sb_gallonSize b)) ∧
  resolves d (litersCode (sb_productCode b)).

#[export] Instance saleResolved_dec d b : Decision (saleResolved d b).
Proof. unfold saleResolved, hasWarehouse, resolves. apply _. Defined.

Definition availPack (d : db) (b : saleBody) : Q :=
  currentQty d (warehouseId d "FG_WH")
    (productId d (packCode (sb_productCode b) (sb_gallonSize b))).

Definition availLit (d : db) (b : saleBody) : Q :=
  currentQty d (warehouseId d "FG_WH") (productId d (litersCode (sb_productCode b))).

(** The entries the item loop has written when it stops: one for every
    item before the first one it rejects. *)
Fixpoint purchasedTxs (d : db) (RAW_WH GAL_WH userId : Z)
    (items : list purchaseItem) : list inventoryTx :=
  match items with
  | [] => []
  | it :: rest =>
      match product_tbl d !! it_code it with
      | Some p =>
          match routeWarehouse RAW_WH GAL_WH p with
          | Some whId =>
              if whId =? 0 then []
              else mkTx PURCHASE whId (p_id p) (it_qty it) userId
                   :: purchasedTxs d RAW_WH GAL_WH userId rest
          | None => []
          end
      | None => []
      end
  end.

Definition purchaseTxs (d : db) (u : Z) (items : list purchaseItem) : list inventoryTx :=
  purchasedTxs d (warehouseId d "RAW_WH") (warehouseId d "GAL_WH") u items.

Definition rawIds (d : db) (fs : list formulaPerLiter) : list Z :=
  (λ f, productId d (f_rawCode f)) <$> fs.

Definition txKey (tx : inventoryTx) : Z * Z := (tx_warehouseId tx, tx_productId tx).

(** The (warehouse, product) pairs a request names: for a production the
    raw materials of the formula in the raw warehouse, the gallon of the
    size in the gallon warehouse, the pack and the liters of the family in
    the finished-goods warehouse; for a sale the latter two; for a
    purchase the product of each item in the warehouse of its type. *)
Definition namedPairs (d : db) (r : request) : list (Z * Z) :=
  match r with
  | Production u b =>
      ((λ f, (warehouseId d "RAW_WH", productId d (f_rawCode f)))
         <$> formulaOf d (pb_productCode b))
      ++ [(warehouseId d "GAL_WH", productId d (gallonCode (pb_gallonSize b)));
          (warehouseId d "FG_WH",
           productId d (packCode (pb_productCode b) (pb_gallonSize b)));
          (warehouseId d "FG_WH", productId d (litersCode (pb_productCode b)))]
  | Sale u b =>
      [(warehouseId d "FG_WH",
        productId d (packCode (sb_productCode b) (sb_gallonSize b)));
       (warehouseId d "FG_WH", productId d (litersCode (sb_productCode b)))]
  | Purchase u items =>
      omap (λ it,
              match product_tbl d !! it_code it with
              | Some p =>
                  match routeWarehouse (warehouseId d "RAW_WH")
                                       (warehouseId d "GAL_WH") p with
                  | Some whId => Some (whId, p_id p)
                  | None => None
                  end
              | None => None
              end) items
  end.

(** The records one rule contributes: none when its warehouse or its
    product is not found, none when the balance is not below the minimum,
    one otherwise. *)
Definition ruleAlerts (d : db) (r : alertRule) : list alert :=
  match warehouse_tbl d !! r_warehouseCode r, product_tbl d !! r_productCode r with
  | Some wh, Some pr =>
      if Qltb (currentQty d (wh_id wh) (p_id pr)) (r_minQty r)
      then [mkAlert (wh_name wh) (r_productCode r)
                    (currentQty d (wh_id wh) (p_id pr)) (r_minQty r) (p_unit pr)]
      else []
  | _, _ => []
  end.

Definition ruleResolved (d : db) (r : alertRule) : Prop :=
  hasWarehouse d (r_warehouseCode r) ∧ resolves d (r_productCode r).

#[export] Instance ruleResolved_dec d r : Decision (ruleResolved d r).
Proof. unfold ruleResolved, hasWarehouse, resolves. apply _. Defined.


(** ** Conditions on stores *)

(** Every balance is the sum of the ledger entries of its pair. *)
Definition ledgerConsistent (d : db) : Prop :=
  ∀ w p, (currentQty d w p == ledgerSum d w p)%Q.

Definition nonNegative (d : db) : Prop := ∀ w p, (0 <= currentQty d w p)%Q.

(** The failures of the stock pre-checks. *)
Definition insufficiency (e : failure) : Prop :=
  match e with
  | InsufficientRawMaterial _ _ _ | InsufficientContainers _ _ _
  | InsufficientPackagedStock _ _ | InsufficientLiquidStock _ _ => True
  | _ => False
  end.

(** The balance of a product code in the finished-goods warehouse. *)
Definition fgQty (d : db) (code : string) : Q :=
  match warehouse_tbl d !! "FG_WH", product_tbl d !! code with
  | Some wh, Some p => currentQty d (wh_id wh) (p_id p)
  | _, _ => 0%Q
  end.



Definition fgDelta (d : db) (code : string) (txs : list inventoryTx) : Q :=
  match warehouse_tbl d !! "FG_WH", product_tbl d !! code with
  | Some wh, Some p => deltaSum (wh_id wh) (p_id p) txs
  | _, _ => 0%Q
  end.




(** ** Stores for examples

    A part of what the seed script creates, and stores made from it. *)

Definition seedWarehouses : gmap string warehouse :=
  list_to_map [("RAW_WH", mkWarehouse 1 "raw materials");
               ("FG_WH", mkWarehouse 2 "finished goods");
               ("GAL_WH", mkWarehouse 3 "gallons")].

Definition seedProducts : gmap string product :=
  list_to_map [("S", mkProduct 1 "S" "RAW" "kg");
               ("P", mkProduct 2 "P" "RAW" "kg");
               ("GALLON_5", mkProduct 6 "5L gallon" "GALLON" "count");
               ("GALLON_10", mkProduct 7 "10L gallon" "GALLON" "count");
               ("GALLON_20", mkProduct 8 "20L gallon" "GALLON" "count");
               ("TP_PACK_5", mkProduct 9 "TP 5L" "PRODUCT_PACK" "count");
               ("TP_PACK_10", mkProduct 10 "TP 10L" "PRODUCT_PACK" "count");
               ("TP_PACK_20", mkProduct 11 "TP 20L" "PRODUCT_PACK" "count");
               ("TP_LITERS", mkProduct 12 "TP (liters)" "PRODUCT_LIQUID" "liter")].

Definition seedFormulas : list formulaPerLiter :=
  [mkFormula "TP" "P" (53 # 100); mkFormula "TP" "S" (304 # 1000)].

Definition seedRules : list alertRule :=
  [mkAlertRule "RAW_WH" "S" (10000 # 1); mkAlertRule "RAW_WH" "P" (10000 # 1)].

(** The catalog with no inventory row and no ledger entry. *)
Definition emptyStore : db :=
  mkDb seedWarehouses seedProducts seedFormulas seedRules ∅ [].

(** The catalog after a purchase of raw materials and gallons, and after a
    production of ten 5-liter packs of TP. *)
Definition stockedStore : db :=
  run [Purchase 1 [mkItem "P" (1000 # 1); mkItem "S" (1000 # 1);
                   mkItem "GALLON_5" (50 # 1); mkItem "GALLON_10" (50 # 1)]]
      emptyStore.

Definition packedStore : db :=
  run [Production 7 (mkProductionBody "TP" 5 10)] stockedStore.

Definition tp10x20 : productionBody := mkProductionBody "TP" 10 20.

Definition sampleRequests : list request :=
  [Purchase 1 [mkItem "P" (1000 # 1); mkItem "S" (1000 # 1);
               mkItem "GALLON_10" (50 # 1)];
   Production 7 tp10x20;
   Sale 3 (mkSaleBody "TP" 10 5)].


(** A catalog in which a family has a formula and no pack product. *)
Definition orphanFormulaStore : db :=
  mkDb (warehouse_tbl stockedStore) (product_tbl stockedStore)
       (seedFormulas ++ [mkFormula "MN" "S" (18 # 100)])
       seedRules (inventory_tbl stockedStore) (inventoryTx_tbl stockedStore).


(** ** Entries of a purchase and tags of a request *)

(** The warehouse the purchase loop routes an item to (0 when the item is
    not routed), and the entry it writes for it. *)
Definition itemWarehouse (d : db) (it : purchaseItem) : Z :=
  match product_tbl d !! it_code it with
  | Some p =>
      match routeWarehouse (warehouseId d "RAW_WH") (warehouseId d "GAL_WH") p with
      | Some whId => whId
      | None => 0
      end
  | None => 0
  end.

Definition itemTx (d : db) (u : Z) (it : purchaseItem) : inventoryTx :=
  mkTx PURCHASE (itemWarehouse d it) (productId d (it_code it)) (it_qty it) u.

(** The [txType] a handler passes to [applyTx], and the user of a request. *)
Definition kindOf (r : request) : txKind :=
  match r with
  | Production _ _ => PRODUCTION
  | Purchase _ _ => PURCHASE
  | Sale _ _ => SALE
  end.

Definition userOf (r : request) : Z :=
  match r with
  | Production u _ | Purchase u _ | Sale u _ => u
  end.


(** The answer of a route when its handler has run. *)
Definition answered {A : Type} (r : outcome A * db) : reply A * db :=
  match r with
  | (Ok a, d') => (Answer a, d')
  | (Err e, d') => (Failed e, d')
  end.

(** A family code the summary recognises, and the four product codes of a
    family. *)
Definition validFamily (F : string) : Prop :=
  F ≠ EmptyString ∧ allFamilyChars F = true.

Definition familyCodes (F : string) : list string :=
  [litersCode F; packCode F 5; packCode F 10; packCode F 20].

Definition rowKey (row : inventoryRow) : string * string :=
  (row_warehouse row, row_code row).

(** The row of a warehouse code and a product code, if there is one. *)
Definition rowOf (rows : list inventoryRow) (wh code : string) : option inventoryRow :=
  head (filter (λ row, rowKey row = (wh, code)) rows).

(** The object of a family in [productsMap], if there is one. *)
Definition familyObject (F : string) (m : list productSummary) : option productSummary :=
  head (filter (λ o, ps_code o = F) m).


(** The value the summary holds for a family under one of the four fields
    of its object, 0 without an object. *)
Definition fieldFor (F : string) (proj : productSummary → Q) (acc : summary) : Q :=
  from_option proj 0%Q (familyObject F (products acc)).

(** A product code has an inventory row in a warehouse. *)
Definition stocked (d : db) (wh code : string) : Prop :=
  ∃ w p, warehouse_tbl d !! wh = Some w ∧ product_tbl d !! code = Some p ∧
         is_Some (inventory_tbl d !! (wh_id w, p_id p)).

(** The rules that steps 6 and 7 of [main] write. *)
Definition seeded (r : alertRule) : Prop :=
  (r_warehouseCode r = "RAW_WH" ∧ r_productCode r ∈ ["S"; "P"; "U"; "C"; "N"]) ∨
  (r_warehouseCode r = "GAL_WH" ∧
   r_productCode r ∈ ["GALLON_5"; "GALLON_10"; "GALLON_20"]).

(** A store with the catalog of the seed (one family of finished goods),
    before its steps 6 and 7: no alert rule, no inventory row. *)
Definition freshStore : db :=
  mkDb seedWarehouses
       (<["U" := mkProduct 3 "U" "RAW" "kg"]>
          (<["C" := mkProduct 4 "C" "RAW" "kg"]>
             (<["N" := mkProduct 5 "N" "RAW" "kg"]> seedProducts)))
       seedFormulas [] ∅ [].

(** * Properties *)

(** ** Committed entries *)

Lemma commit_catalog d tx : sameCatalog d (commit d tx).
Proof. by repeat split. Qed.

Lemma sameCatalog_refl d : sameCatalog d d.
Proof. by repeat split. Qed.

Lemma sameCatalog_trans d1 d2 d3 :
  sameCatalog d1 d2 → sameCatalog d2 d3 → sameCatalog d1 d3.
Proof.
  intros (?&?&?&?) (?&?&?&?). repeat split; congruence.
Qed.

Lemma commits_app txs1 txs2 d :
  commits (txs1 ++ txs2) d = commits txs2 (commits txs1 d).
Proof. apply foldl_app. Qed.

Lemma commits_catalog txs d : sameCatalog d (commits txs d).
Proof.
  revert d. induction txs as [|tx txs IH]; intros d; simpl.
  - apply sameCatalog_refl.
  - eapply sameCatalog_trans; [apply (commit_catalog d tx) | apply IH].
Qed.

Lemma commits_ledger txs d :
  inventoryTx_tbl (commits txs d) = inventoryTx_tbl d ++ txs.
Proof.
  revert d. induction txs as [|tx txs IH]; intros d; simpl.
  - by rewrite app_nil_r.
  - rewrite IH. simpl. by rewrite <- app_assoc.
Qed.

Lemma deltaSum_app w p txs1 txs2 :
  (deltaSum w p (txs1 ++ txs2) == deltaSum w p txs1 + deltaSum w p txs2)%Q.
Proof.
  induction txs1 as [|tx txs1 IH]; simpl; [lra|]. rewrite IH. lra.
Qed.

Lemma currentQty_commit d tx w p :
  (currentQty (commit d tx) w p == currentQty d w p + txDelta w p tx)%Q.
Proof.
  unfold currentQty, txDelta, commit, inventory_upsert_increment. simpl.
  destruct (decide ((tx_warehouseId tx, tx_productId tx) = (w, p))) as [->|Hne].
  - rewrite lookup_insert_eq. destruct (inventory_tbl d !! (w, p)); lra.
  - rewrite lookup_insert_ne by done. lra.
Qed.

Lemma currentQty_commits txs d w p :
  (currentQty (commits txs d) w p == currentQty d w p + deltaSum w p txs)%Q.
Proof.
  revert d. induction txs as [|tx txs IH]; intros d; simpl; [lra|].
  rewrite IH, currentQty_commit. lra.
Qed.

(** A pair no committed entry names keeps its row, or its absence. *)
Lemma commits_other txs d w p :
  Forall (λ tx, (tx_warehouseId tx, tx_productId tx) ≠ (w, p)) txs →
  inventory_tbl (commits txs d) !! (w, p) = inventory_tbl d !! (w, p).
Proof.
  revert d. induction txs as [|tx txs IH]; intros d Hall; simpl; [done|].
  inversion Hall as [|? ? Hne Hrest]; subst.
  rewrite IH by done. unfold commit, inventory_upsert_increment. simpl.
  by rewrite lookup_insert_ne.
Qed.

Lemma deltaSum_other txs w p :
  Forall (λ tx, (tx_warehouseId tx, tx_productId tx) ≠ (w, p)) txs →
  deltaSum w p txs = 0%Q.
Proof.
  induction 1 as [|tx txs Hne _ IH]; simpl; [done|].
  unfold txDelta. rewrite decide_False by done. by rewrite IH.
Qed.

(** ** Running the handlers *)

Lemma applyTx_commit k w p q u d :
  applyTx k w p q u d = (Ok tt, commit d (mkTx k w p q u)).
Proof. reflexivity. Qed.

Lemma getInv_currentQty w p d : getInv w p d = (Ok (currentQty d w p), d).
Proof. unfold getInv, currentQty. by destruct (inventory_tbl d !! (w, p)). Qed.

Lemma Qltb_lt a b : Qltb a b = true ↔ (a < b)%Q.
Proof.
  unfold Qltb. rewrite negb_true_iff, <- not_true_iff_false, Qle_bool_iff.
  split; [apply Qnot_le_lt | apply Qlt_not_le].
Qed.

Lemma Qltb_ge a b : Qltb a b = false ↔ (b <= a)%Q.
Proof. unfold Qltb. by rewrite negb_false_iff, Qle_bool_iff. Qed.

Lemma bind_Ok {A B} (m : M A) (f : A → M B) d a d1 :
  m d = (Ok a, d1) → (m ≫= f) d = f a d1.
Proof. intros H. unfold mbind, M_bind. by rewrite H. Qed.

Lemma bind_Err {A B} (m : M A) (f : A → M B) d e d1 :
  m d = (Err e, d1) → (m ≫= f) d = (Err e, d1).
Proof. intros H. unfold mbind, M_bind. by rewrite H. Qed.

Lemma getWarehouseId_some c d wh :
  warehouse_tbl d !! c = Some wh → getWarehouseId c d = (Ok (wh_id wh), d).
Proof. intros H. unfold getWarehouseId. by rewrite H. Qed.

Lemma getWarehouseId_none c d :
  warehouse_tbl d !! c = None → getWarehouseId c d = (Err (UnknownWarehouse c), d).
Proof. intros H. unfold getWarehouseId. by rewrite H. Qed.

Lemma getProductByCode_some c d p :
  product_tbl d !! c = Some p → getProductByCode c d = (Ok p, d).
Proof. intros H. unfold getProductByCode. by rewrite H. Qed.

Lemma getProductByCode_none c d :
  product_tbl d !! c = None → getProductByCode c d = (Err (UnknownProduct c), d).
Proof. intros H. unfold getProductByCode. by rewrite H. Qed.

(** The check loop writes nothing; when it passes, every raw material of
    the formula is in the catalog and in sufficient stock. *)
Lemma checkRawStock_store w l fs d : (checkRawStock w l fs d).2 = d.
Proof.
  induction fs as [|f fs IH]; simpl; [done|].
  unfold mbind, M_bind, getProductByCode.
  destruct (product_tbl d !! f_rawCode f); [|done].
  rewrite getInv_currentQty. by destruct (Qltb _ _).
Qed.

Lemma checkRawStock_ok w l fs d :
  (checkRawStock w l fs d).1 = Ok tt →
  Forall (λ f, resolves d (f_rawCode f) ∧
               (f_kgPerLiter f * inject_Z l <= currentQty d w (productId d (f_rawCode f)))%Q) fs.
Proof.
  induction fs as [|f fs IH]; simpl; [done|].
  unfold mbind, M_bind, getProductByCode, resolves, productId.
  destruct (product_tbl d !! f_rawCode f) as [raw|] eqn:Hraw; [|done].
  rewrite getInv_currentQty.
  destruct (Qltb _ _) eqn:Hlt; [done|]. intros Hok.
  constructor; [|by apply IH]. rewrite Hraw. split; [done|].
  by apply Qltb_ge.
Qed.

Lemma rawTxs_catalog d d' w l u fs :
  product_tbl d' = product_tbl d → rawTxs d' w l u fs = rawTxs d w l u fs.
Proof. intros H. unfold rawTxs, productId. by rewrite H. Qed.

Lemma consumeRaw_run w l u fs acc d :
  Forall (λ f, resolves d (f_rawCode f)) fs →
  consumeRaw w l u fs acc d
  = (Ok (acc ++ (consumedOf l <$> fs)), commits (rawTxs d w l u fs) d).
Proof.
  revert acc d. induction fs as [|f fs IH]; intros acc d Hall; simpl.
  - by rewrite app_nil_r.
  - inversion Hall as [|? ? [raw Hraw] Hrest]; subst.
    unfold mbind, M_bind, getProductByCode. rewrite Hraw.
    rewrite applyTx_commit.
    set (tx := mkTx _ _ _ _ _).
    rewrite IH.
    + rewrite <- app_assoc. simpl. f_equal.
      rewrite (rawTxs_catalog d (commit d tx)) by done.
      unfold productId. by rewrite Hraw.
    + eapply Forall_impl; [exact Hrest|]. intros f' Hf'. exact Hf'.
Qed.

Lemma production_cases u b d :
  (∃ e, production u b d = (Err e, d)) ∨
  (productionChecked d b ∧
   ((∃ e, production u b d = (Err e, commits (consumptionTxs d u b) d) ∧
          (e = UnknownProduct (packCode (pb_productCode b) (pb_gallonSize b)) ∧
           ¬ resolves d (packCode (pb_productCode b) (pb_gallonSize b))
           ∨ e = UnknownProduct (litersCode (pb_productCode b)) ∧
             ¬ resolves d (litersCode (pb_productCode b)))) ∨
    (resolves d (packCode (pb_productCode b) (pb_gallonSize b)) ∧
     resolves d (litersCode (pb_productCode b)) ∧
     production u b d
     = (Ok (mkProductionResponse (pb_productCode b) (pb_gallonSize b) (pb_count b)
              (pb_count b * pb_gallonSize b)
              (consumedOf (pb_count b * pb_gallonSize b)
                 <$> formulaOf d (pb_productCode b))),
        commits (consumptionTxs d u b ++ outputTxs d u b) d)))).
Proof.
  unfold production.
  destruct (productionSchema b) eqn:Hschema; cbn [negb]; [|left; by eexists].
  cbv zeta.
  destruct (warehouse_tbl d !! "RAW_WH") as [RAW|] eqn:HRAW;
    [rewrite (bind_Ok _ _ _ _ _ (getWarehouseId_some _ _ _ HRAW))
    |left; eexists; apply bind_Err, getWarehouseId_none, HRAW].
  destruct (warehouse_tbl d !! "GAL_WH") as [GAL|] eqn:HGAL;
    [rewrite (bind_Ok _ _ _ _ _ (getWarehouseId_some _ _ _ HGAL))
    |left; eexists; apply bind_Err, getWarehouseId_none, HGAL].
  destruct (warehouse_tbl d !! "FG_WH") as [FG|] eqn:HFG;
    [rewrite (bind_Ok _ _ _ _ _ (getWarehouseId_some _ _ _ HFG))
    |left; eexists; apply bind_Err, getWarehouseId_none, HFG].
  rewrite (bind_Ok (findFormula _) _ d (formulaOf d (pb_productCode b)) d eq_refl).
  set (fs := formulaOf d (pb_productCode b)).
  set (liters := pb_count b * pb_gallonSize b).
  destruct (length fs =? 0)%nat eqn:Hlen; [left; by eexists|].
  pose proof (checkRawStock_store (wh_id RAW) liters fs d) as Hstore.
  pose proof (checkRawStock_ok (wh_id RAW) liters fs d) as Hok.
  destruct (checkRawStock (wh_id RAW) liters fs d) as [[[]|e] d0] eqn:Hcheck;
    simpl in Hstore, Hok; subst d0;
    [rewrite (bind_Ok _ _ _ _ _ Hcheck)
    |left; eexists; apply bind_Err, Hcheck].
  specialize (Hok eq_refl).
  destruct (product_tbl d !! gallonCode (pb_gallonSize b)) as [gallonProd|] eqn:Hgal;
    [rewrite (bind_Ok _ _ _ _ _ (getProductByCode_some _ _ _ Hgal))
    |left; eexists; apply bind_Err, getProductByCode_none, Hgal].
  rewrite (bind_Ok _ _ _ _ _ (getInv_currentQty _ _ _)).
  destruct (Qltb _ _) eqn:HavailG; [left; by eexists|].
  apply Qltb_ge in HavailG.
  assert (productionChecked d b) as Hchecked.
  { unfold productionChecked, hasWarehouse, resolves, warehouseId, productId.
    rewrite HRAW, HGAL, HFG, Hgal. fold fs liters.
    repeat split; try done.
    intros Hnil. by rewrite Hnil in Hlen. }
  right. split; [exact Hchecked|].
  erewrite bind_Ok;
    [|apply consumeRaw_run; eapply Forall_impl; [exact Hok|]; by intros ? [? _]].
  rewrite (bind_Ok _ _ _ _ _ (applyTx_commit _ _ _ _ _ _)).
  assert (commit (commits (rawTxs d (wh_id RAW) liters u fs) d)
            (mkTx PRODUCTION (wh_id GAL) (p_id gallonProd)
                  (- inject_Z (pb_count b))%Q u)
          = commits (consumptionTxs d u b) d) as ->.
  { unfold consumptionTxs, warehouseId, productId.
    rewrite HRAW, HGAL, Hgal, commits_app. done. }
  set (d1 := commits (consumptionTxs d u b) d).
  assert (product_tbl d1 = product_tbl d) as Hcat by apply commits_catalog.
  unfold resolves.
  destruct (product_tbl d !! packCode _ _) as [pack|] eqn:Hpack.
  2:{ left. eexists. split.
      - apply bind_Err, getProductByCode_none. by rewrite Hcat.
      - left. split; [done|]. by intros [? ?]. }
  erewrite bind_Ok; [|apply getProductByCode_some; by rewrite Hcat].
  destruct (product_tbl d !! litersCode _) as [litersProd|] eqn:Hlit.
  2:{ left. eexists. split.
      - apply bind_Err, getProductByCode_none. by rewrite Hcat.
      - right. split; [done|]. by intros [? ?]. }
  erewrite bind_Ok; [|apply getProductByCode_some; by rewrite Hcat].
  right. split; [done|]. split; [done|].
  rewrite !(bind_Ok _ _ _ _ _ (applyTx_commit _ _ _ _ _ _)).
  unfold mret, M_ret. f_equal.
  unfold d1. rewrite commits_app. unfold outputTxs, warehouseId, productId.
  by rewrite HFG, Hpack, Hlit.
Qed.

(** ** Product codes of a family

    [`${productCode}_PACK_${gallonSize}`] and [`${productCode}_LITERS`]
    determine the family and the size. *)

Lemma append_nil_l t : "" +:+ t = t.
Proof. reflexivity. Qed.

Lemma append_cons c s t : String c s +:+ t = String c (s +:+ t).
Proof. reflexivity. Qed.

Lemma lastChar_append s t : t ≠ EmptyString → lastChar (s +:+ t) = lastChar t.
Proof.
  intros Ht. induction s as [|c s IH]; simpl; [done|].
  rewrite IH. destruct (s +:+ t) eqn:Hst; [|done].
  destruct s; simpl in Hst; [done|discriminate].
Qed.

Lemma length_append s t :
  String.length (s +:+ t) = (String.length s + String.length t)%nat.
Proof. induction s as [|c s IH]; simpl; [done|]. by rewrite IH. Qed.

Lemma append_same_length s1 s2 t1 t2 :
  s1 +:+ t1 = s2 +:+ t2 → String.length t1 = String.length t2 →
  s1 = s2 ∧ t1 = t2.
Proof.
  revert s2. induction s1 as [|c s1 IH]; intros [|c2 s2] Heq Hlen;
    rewrite ?append_nil_l, ?append_cons in Heq.
  - done.
  - exfalso. subst t1. simpl in Hlen. rewrite length_append in Hlen. lia.
  - exfalso. subst t2. simpl in Hlen. rewrite length_append in Hlen. lia.
  - injection Heq as -> Heq. destruct (IH _ Heq Hlen) as [-> ->]. done.
Qed.

Lemma isGallonSize_spec g : isGallonSize g = true ↔ g ∈ gallonSizes.
Proof.
  unfold isGallonSize, gallonSizes.
  rewrite !orb_true_iff, !Z.eqb_eq, !elem_of_cons, elem_of_nil. tauto.
Qed.

Ltac gallon_cases H :=
  apply elem_of_cons in H as [->|H];
  [|apply elem_of_cons in H as [->|H];
    [|apply elem_of_cons in H as [->|H]; [|by apply elem_of_nil in H]]].

Ltac code_clash H :=
  first
    [ apply append_same_length in H as [? ?]; [|reflexivity]; discriminate
    | apply (f_equal lastChar) in H;
      rewrite !lastChar_append in H by discriminate; discriminate ].

Lemma packCode_inj F1 s1 F2 s2 :
  s1 ∈ gallonSizes → s2 ∈ gallonSizes →
  packCode F1 s1 = packCode F2 s2 → F1 = F2 ∧ s1 = s2.
Proof.
  intros H1 H2. gallon_cases H1; gallon_cases H2; unfold packCode;
    change (pretty 5) with "5"; change (pretty 10) with "10";
    change (pretty 20) with "20"; simpl; intros Heq;
    try (apply append_same_length in Heq as [-> _]; [done|reflexivity]);
    exfalso; code_clash Heq.
Qed.

Lemma packCode_litersCode F1 s F2 :
  s ∈ gallonSizes → packCode F1 s ≠ litersCode F2.
Proof.
  intros Hs Heq. gallon_cases Hs; unfold packCode, litersCode in Heq;
    [change (pretty 5) with "5" in Heq
    |change (pretty 10) with "10" in Heq
    |change (pretty 20) with "20" in Heq]; simpl in Heq; code_clash Heq.
Qed.

Lemma litersCode_inj F1 F2 : litersCode F1 = litersCode F2 → F1 = F2.
Proof.
  unfold litersCode. intros Heq.
  by apply append_same_length in Heq as [-> _].
Qed.

(** ** Consequences of the integrity constraints *)

Lemma uniqueIds_inj {A : Type} (id : A → Z) (t : gmap string A) c1 c2 r1 r2 :
  uniqueIds id t → t !! c1 = Some r1 → t !! c2 = Some r2 →
  id r1 = id r2 → c1 = c2.
Proof.
  unfold uniqueIds. intros Hnd H1 H2 Hid.
  apply elem_of_map_to_list, list_elem_of_lookup in H1 as [i Hi].
  apply elem_of_map_to_list, list_elem_of_lookup in H2 as [j Hj].
  assert (i = j) as ->.
  { apply (NoDup_lookup _ i j (id r1) Hnd).
    - by rewrite !list_lookup_fmap, Hi.
    - by rewrite !list_lookup_fmap, Hj, Hid. }
  congruence.
Qed.

Lemma productId_inj d c1 c2 :
  wellFormed d → resolves d c1 → resolves d c2 →
  productId d c1 = productId d c2 → c1 = c2.
Proof.
  intros (_ & Hp & _) [p1 H1] [p2 H2]. unfold productId. rewrite H1, H2.
  by apply (uniqueIds_inj p_id (product_tbl d)).
Qed.

Lemma warehouseId_inj d c1 c2 :
  wellFormed d → hasWarehouse d c1 → hasWarehouse d c2 →
  warehouseId d c1 = warehouseId d c2 → c1 = c2.
Proof.
  intros (Hw & _ & _) [w1 H1] [w2 H2]. unfold warehouseId. rewrite H1, H2.
  by apply (uniqueIds_inj wh_id (warehouse_tbl d)).
Qed.


(** The raw materials of one formula are pairwise distinct. *)
Lemma formulaOf_rawCodes_NoDup d F :
  wellFormed d → NoDup (f_rawCode <$> formulaOf d F).
Proof.
  intros (_ & _ & Hf). unfold uniqueFormulaKeys, formulaOf in *.
  induction (formulaPerLiter_tbl d) as [|f fs IH]; simpl; [constructor|].
  apply NoDup_cons in Hf as [Hnotin Hnd].
  rewrite filter_cons. case_decide as HF; [|by apply IH].
  rewrite fmap_cons. apply NoDup_cons. split; [|by apply IH].
  intros Hin. apply Hnotin.
  apply list_elem_of_fmap in Hin as (f' & Hraw & Hin).
  apply list_elem_of_filter in Hin as [HF' Hin].
  apply list_elem_of_fmap. exists f'. split; [|done]. congruence.
Qed.

(** ** The sale handler, case by case *)

Lemma sales_unresolved u b d :
  ¬ saleResolved d b →
  ∃ e, sales u b d = (Err e, d) ∧
       (e = InvalidBody ∨ e = UnknownWarehouse "FG_WH" ∨
        e = UnknownProduct (packCode (sb_productCode b) (sb_gallonSize b)) ∨
        e = UnknownProduct (litersCode (sb_productCode b))).
Proof.
  unfold saleResolved, hasWarehouse, resolves, sales. intros Hnot.
  destruct (saleSchema b) eqn:Hschema; cbn [negb]; [|eexists; split; [done|tauto]].
  cbv zeta.
  destruct (warehouse_tbl d !! "FG_WH") as [FG|] eqn:HFG.
  2:{ eexists. split; [apply bind_Err, getWarehouseId_none, HFG|tauto]. }
  rewrite (bind_Ok _ _ _ _ _ (getWarehouseId_some _ _ _ HFG)).
  destruct (product_tbl d !! packCode _ _) as [pack|] eqn:Hpack.
  2:{ eexists. split; [apply bind_Err, getProductByCode_none, Hpack|tauto]. }
  rewrite (bind_Ok _ _ _ _ _ (getProductByCode_some _ _ _ Hpack)).
  destruct (product_tbl d !! litersCode _) as [lit|] eqn:Hlit.
  2:{ eexists. split; [apply bind_Err, getProductByCode_none, Hlit|tauto]. }
  exfalso. apply Hnot. by repeat split.
Qed.

Lemma sales_resolved u b d :
  saleResolved d b →
  sales u b d
  = if Qltb (availPack d b) (inject_Z (sb_count b))
    then (Err (InsufficientPackagedStock (availPack d b) (sb_count b)), d)
    else if Qltb (availLit d b) (inject_Z (sb_count b * sb_gallonSize b))
    then (Err (InsufficientLiquidStock (availLit d b)
                 (sb_count b * sb_gallonSize b)), d)
    else (Ok (mkSaleResponse (sb_productCode b) (sb_gallonSize b) (sb_count b)
                (sb_count b * sb_gallonSize b)),
          commits (saleTxs d u b) d).
Proof.
  unfold saleResolved, hasWarehouse, resolves, sales, availPack, availLit,
    saleTxs, warehouseId, productId.
  intros (Hschema & [FG HFG] & [pack Hpack] & [lit Hlit]).
  rewrite Hschema, HFG, Hpack, Hlit. cbn [negb]. cbv zeta.
  rewrite (bind_Ok _ _ _ _ _ (getWarehouseId_some _ _ _ HFG)).
  rewrite (bind_Ok _ _ _ _ _ (getProductByCode_some _ _ _ Hpack)).
  rewrite (bind_Ok _ _ _ _ _ (getProductByCode_some _ _ _ Hlit)).
  rewrite !(bind_Ok _ _ _ _ _ (getInv_currentQty _ _ _)).
  destruct (Qltb _ _); [done|]. destruct (Qltb _ _); [done|].
  by rewrite !(bind_Ok _ _ _ _ _ (applyTx_commit _ _ _ _ _ _)).
Qed.

(** ** The purchase handler *)

Lemma purchasedTxs_catalog d d' RAW GAL u items :
  product_tbl d' = product_tbl d →
  purchasedTxs d' RAW GAL u items = purchasedTxs d RAW GAL u items.
Proof. intros H. induction items as [|it items IH]; simpl; [done|]. by rewrite H, IH. Qed.

Lemma purchaseItems_store RAW GAL u items d :
  (purchaseItems RAW GAL u items d).2 = commits (purchasedTxs d RAW GAL u items) d.
Proof.
  revert d. induction items as [|it items IH]; intros d; simpl; [done|].
  destruct (product_tbl d !! it_code it) as [p|] eqn:Hp.
  2:{ by rewrite (bind_Err _ _ _ _ _ (getProductByCode_none _ _ Hp)). }
  rewrite (bind_Ok _ _ _ _ _ (getProductByCode_some _ _ _ Hp)).
  destruct (routeWarehouse RAW GAL p) as [whId|]; [|done].
  destruct (whId =? 0); [done|].
  rewrite (bind_Ok _ _ _ _ _ (applyTx_commit _ _ _ _ _ _)).
  rewrite IH. by rewrite (purchasedTxs_catalog d).
Qed.

(** When the loop succeeds it has written one entry for every item. *)
Lemma purchaseItems_ok RAW GAL u items d :
  (purchaseItems RAW GAL u items d).1 = Ok tt →
  length (purchasedTxs d RAW GAL u items) = length items.
Proof.
  revert d. induction items as [|it items IH]; intros d; simpl; [done|].
  destruct (product_tbl d !! it_code it) as [p|] eqn:Hp.
  2:{ by rewrite (bind_Err _ _ _ _ _ (getProductByCode_none _ _ Hp)). }
  rewrite (bind_Ok _ _ _ _ _ (getProductByCode_some _ _ _ Hp)).
  destruct (routeWarehouse RAW GAL p) as [whId|]; [|done].
  destruct (whId =? 0); [done|].
  rewrite (bind_Ok _ _ _ _ _ (applyTx_commit _ _ _ _ _ _)).
  intros Hok. apply IH in Hok. rewrite (purchasedTxs_catalog d) in Hok by done.
  simpl. by rewrite Hok.
Qed.

(** Every entry of a purchase is for a listed item, in the raw-material or
    the gallon warehouse, and never in a warehouse with identifier 0. *)
Lemma purchasedTxs_entries d RAW GAL u items :
  Forall (λ tx, tx_txType tx = PURCHASE ∧ tx_userId tx = u ∧
                tx_warehouseId tx ≠ 0 ∧
                (tx_warehouseId tx = RAW ∨ tx_warehouseId tx = GAL) ∧
                ∃ it, it ∈ items ∧ resolves d (it_code it) ∧
                      tx_productId tx = productId d (it_code it) ∧
                      tx_qty tx = it_qty it)
         (purchasedTxs d RAW GAL u items).
Proof.
  induction items as [|it items IH]; simpl; [constructor|].
  destruct (product_tbl d !! it_code it) as [p|] eqn:Hp; [|constructor].
  destruct (routeWarehouse RAW GAL p) as [whId|] eqn:Hroute; [|constructor].
  destruct (whId =? 0) eqn:Hz; [constructor|].
  apply Z.eqb_neq in Hz. constructor.
  - simpl. repeat split; try done.
    + unfold routeWarehouse in Hroute.
      destruct (String.eqb _ "RAW"); [left; congruence|].
      destruct (String.eqb _ "GALLON"); [right; congruence|done].
    + exists it. unfold resolves, productId. rewrite Hp.
      split; [apply list_elem_of_here|]. by split; [eexists|].
  - eapply Forall_impl; [exact IH|]. simpl.
    intros tx (?&?&?&?&it'&?&?). repeat split; try done.
    exists it'. split; [by apply list_elem_of_further|done].
Qed.

Lemma purchases_store u items d :
  (purchases u items d).2 = d ∨
  (hasWarehouse d "RAW_WH" ∧ hasWarehouse d "GAL_WH" ∧
   (purchases u items d).2 = commits (purchaseTxs d u items) d).
Proof.
  unfold purchases, purchaseTxs, hasWarehouse, warehouseId.
  destruct (purchasesSchema items); cbn [negb]; [|by left].
  destruct (warehouse_tbl d !! "RAW_WH") as [RAW|] eqn:HRAW.
  2:{ left. by rewrite (bind_Err _ _ _ _ _ (getWarehouseId_none _ _ HRAW)). }
  rewrite (bind_Ok _ _ _ _ _ (getWarehouseId_some _ _ _ HRAW)).
  destruct (warehouse_tbl d !! "GAL_WH") as [GAL|] eqn:HGAL.
  2:{ left. by rewrite (bind_Err _ _ _ _ _ (getWarehouseId_none _ _ HGAL)). }
  rewrite (bind_Ok _ _ _ _ _ (getWarehouseId_some _ _ _ HGAL)).
  right. repeat split; try done. apply purchaseItems_store.
Qed.

(** ** Sums over the entries of a production *)

Lemma txDelta_same k w p q u : txDelta w p (mkTx k w p q u) = q.
Proof. unfold txDelta. simpl. by rewrite decide_True. Qed.

Lemma txDelta_warehouse k w w' p p' q u :
  w ≠ w' → txDelta w p (mkTx k w' p' q u) = 0%Q.
Proof. intros H. unfold txDelta. simpl. rewrite decide_False; [done|congruence]. Qed.

Lemma txDelta_product k w w' p p' q u :
  p ≠ p' → txDelta w p (mkTx k w' p' q u) = 0%Q.
Proof. intros H. unfold txDelta. simpl. rewrite decide_False; [done|congruence]. Qed.

Lemma rawTxs_avoid d RAW l u fs w p :
  w ≠ RAW ∨ p ∉ rawIds d fs →
  Forall (λ tx, (tx_warehouseId tx, tx_productId tx) ≠ (w, p)) (rawTxs d RAW l u fs).
Proof.
  intros Hor. unfold rawTxs. apply Forall_fmap, Forall_forall.
  intros f Hf. simpl. intros [= <- <-]. destruct Hor as [Hw|Hp]; [done|].
  apply Hp. unfold rawIds. apply list_elem_of_fmap. by exists f.
Qed.

(** A pair is named by one entry of the loop at most; then the sum of the
    loop for it is that row's requirement, negated. *)
Lemma rawTxs_delta d RAW l u fs w p :
  NoDup (rawIds d fs) →
  Forall (λ tx, (tx_warehouseId tx, tx_productId tx) ≠ (w, p)) (rawTxs d RAW l u fs)
  ∨ ∃ f, f ∈ fs ∧ w = RAW ∧ p = productId d (f_rawCode f) ∧
         (deltaSum w p (rawTxs d RAW l u fs) == - (f_kgPerLiter f * inject_Z l))%Q.
Proof.
  induction fs as [|f fs IH]; simpl; intros Hnd; [left; constructor|].
  apply NoDup_cons in Hnd as [Hnotin Hnd].
  destruct (decide ((RAW, productId d (f_rawCode f)) = (w, p))) as [[= <- <-]|Hne].
  - right. exists f. split; [apply list_elem_of_here|]. do 2 (split; [done|]).
    rewrite txDelta_same.
    rewrite (deltaSum_other (rawTxs d RAW l u fs)); [lra|].
    apply rawTxs_avoid. by right.
  - destruct (IH Hnd) as [Hall|(f' & Hin & -> & -> & Hsum)].
    + left. by constructor.
    + right. exists f'. split; [by apply list_elem_of_further|].
      do 2 (split; [done|]). rewrite Hsum.
      unfold txDelta. simpl. rewrite decide_False by done. lra.
Qed.

Lemma rawIds_NoDup d F :
  wellFormed d → Forall (λ f, resolves d (f_rawCode f)) (formulaOf d F) →
  NoDup (rawIds d (formulaOf d F)).
Proof.
  intros Hwf Hall. unfold rawIds.
  change (λ f, productId d (f_rawCode f)) with (productId d ∘ f_rawCode).
  rewrite list_fmap_compose.
  apply NoDup_fmap_2_strong; [|by apply formulaOf_rawCodes_NoDup].
  intros c1 c2 Hc1 Hc2. apply productId_inj; [done| |].
  - apply list_elem_of_fmap in Hc1 as (f & -> & Hf).
    by apply (proj1 (Forall_forall _ _) Hall).
  - apply list_elem_of_fmap in Hc2 as (f & -> & Hf).
    by apply (proj1 (Forall_forall _ _) Hall).
Qed.

(** The three fixed warehouses have three identifiers. *)
Lemma fixed_warehouses_distinct d :
  wellFormed d →
  hasWarehouse d "RAW_WH" → hasWarehouse d "GAL_WH" → hasWarehouse d "FG_WH" →
  warehouseId d "RAW_WH" ≠ warehouseId d "GAL_WH" ∧
  warehouseId d "RAW_WH" ≠ warehouseId d "FG_WH" ∧
  warehouseId d "GAL_WH" ≠ warehouseId d "FG_WH".
Proof.
  intros Hwf HR HG HF.
  repeat split; intros Heq; by apply warehouseId_inj in Heq.
Qed.

Lemma productionChecked_raw d b :
  productionChecked d b →
  Forall (λ f, resolves d (f_rawCode f)) (formulaOf d (pb_productCode b)).
Proof.
  intros (_ & _ & _ & _ & _ & Hall & _).
  eapply Forall_impl; [exact Hall|]. by intros f [? _].
Qed.

Lemma productionChecked_sizes b d :
  productionChecked d b → pb_gallonSize b ∈ gallonSizes ∧ 0 < pb_count b.
Proof.
  intros (Hschema & _). unfold productionSchema in Hschema.
  apply andb_true_iff in Hschema as [Hschema Hcount].
  apply andb_true_iff in Hschema as [_ Hsize].
  split; [by apply isGallonSize_spec | by apply Z.ltb_lt].
Qed.

(** The sum of a production's consuming entries for one pair. *)
Lemma consumptionTxs_delta d u b w p :
  wellFormed d → productionChecked d b →
  (deltaSum w p (consumptionTxs d u b) == 0)%Q ∧ 
  (w = warehouseId d "RAW_WH" → p ∉ rawIds d (formulaOf d (pb_productCode b)))
  ∧ (w, p) ≠ (warehouseId d "GAL_WH", productId d (gallonCode (pb_gallonSize b)))
  ∨ (∃ f, f ∈ formulaOf d (pb_productCode b) ∧ w = warehouseId d "RAW_WH" ∧
          p = productId d (f_rawCode f) ∧
          (deltaSum w p (consumptionTxs d u b)
           == - (f_kgPerLiter f * inject_Z (pb_count b * pb_gallonSize b)))%Q)
  ∨ (w = warehouseId d "GAL_WH" ∧ p = productId d (gallonCode (pb_gallonSize b)) ∧
     (deltaSum w p (consumptionTxs d u b) == - inject_Z (pb_count b))%Q).
Proof.
  intros Hwf Hchecked.
  pose proof (productionChecked_raw d b Hchecked) as Hraw.
  destruct Hchecked as (_ & HR & HG & HF & _).
  destruct (fixed_warehouses_distinct d Hwf HR HG HF) as (HRG & HRF & HGF).
  unfold consumptionTxs. set (fs := formulaOf d (pb_productCode b)).
  set (l := pb_count b * pb_gallonSize b).
  destruct (rawTxs_delta d (warehouseId d "RAW_WH") l u fs w p)
    as [Hall|(f & Hin & -> & -> & Hsum)]; [by apply rawIds_NoDup| |].
  - destruct (decide ((w, p) = (warehouseId d "GAL_WH",
                                 productId d (gallonCode (pb_gallonSize b)))))
      as [[= -> ->]|Hne].
    + right. right. do 2 (split; [done|]).
      rewrite deltaSum_app, (deltaSum_other _ _ _ Hall). simpl.
      rewrite txDelta_same. lra.
    + left. split; [|split; [|done]].
      * rewrite deltaSum_app, (deltaSum_other _ _ _ Hall). simpl.
        unfold txDelta. simpl. rewrite decide_False by congruence. lra.
      * intros -> Hin. apply list_elem_of_fmap in Hin as (f & -> & Hf).
        apply (proj1 (Forall_forall _ _) Hall
                 (mkTx PRODUCTION (warehouseId d "RAW_WH")
                       (productId d (f_rawCode f))
                       (- (f_kgPerLiter f * inject_Z l))%Q u)); [|done].
        unfold rawTxs. apply list_elem_of_fmap. by exists f.
  - right. left. exists f. do 3 (split; [done|]).
    rewrite deltaSum_app, Hsum. simpl.
    rewrite txDelta_warehouse by done. lra.
Qed.

Lemma pack_liters_ids_distinct d F s :
  wellFormed d → s ∈ gallonSizes →
  resolves d (packCode F s) → resolves d (litersCode F) →
  productId d (packCode F s) ≠ productId d (litersCode F).
Proof.
  intros Hwf Hs Hpack Hlit Heq.
  apply productId_inj in Heq; [|done..].
  by apply packCode_litersCode in Heq.
Qed.

(** A successful production is the commit of its consuming entries
    followed by its two output entries. *)
Lemma production_ok u b d resp d' :
  production u b d = (Ok resp, d') →
  productionChecked d b ∧
  resolves d (packCode (pb_productCode b) (pb_gallonSize b)) ∧
  resolves d (litersCode (pb_productCode b)) ∧
  resp = mkProductionResponse (pb_productCode b) (pb_gallonSize b) (pb_count b)
           (pb_count b * pb_gallonSize b)
           (consumedOf (pb_count b * pb_gallonSize b)
              <$> formulaOf d (pb_productCode b)) ∧
  d' = commits (consumptionTxs d u b ++ outputTxs d u b) d.
Proof.
  intros Hrun.
  destruct (production_cases u b d)
    as [[e He]|[Hchecked [(e & He & _)|(Hpack & Hlit & Hok)]]];
    rewrite Hrun in *; try discriminate.
  injection Hok as -> ->. done.
Qed.


Lemma wellFormed_stockedStore : wellFormed stockedStore.
Proof. refine (bool_decide_unpack (wellFormed stockedStore) _). vm_compute. exact I. Defined.

Lemma wellFormed_packedStore : wellFormed packedStore.
Proof. refine (bool_decide_unpack (wellFormed packedStore) _). vm_compute. exact I. Defined.




(** ** Every handler only commits entries *)

Lemma production_commits u b d : ∃ txs, (production u b d).2 = commits txs d.
Proof.
  destruct (production_cases u b d)
    as [[e He]|[_ [(e & He & _)|(_ & _ & Hok)]]].
  - exists []. by rewrite He.
  - eexists. by rewrite He.
  - eexists. by rewrite Hok.
Qed.

Lemma sales_commits u b d : ∃ txs, (sales u b d).2 = commits txs d.
Proof.
  destruct (decide (saleResolved d b)) as [Hres|Hnot].
  - rewrite (sales_resolved u b d Hres).
    destruct (Qltb _ _); [by exists []|].
    destruct (Qltb _ _); [by exists []|]. by eexists.
  - destruct (sales_unresolved u b d Hnot) as (e & He & _).
    exists []. by rewrite He.
Qed.

Lemma purchases_commits u items d : ∃ txs, (purchases u items d).2 = commits txs d.
Proof.
  destruct (purchases_store u items d) as [Hsame|(_ & _ & Hrun)].
  - exists []. by rewrite Hsame.
  - eexists. exact Hrun.
Qed.

Lemma step_commits d r : ∃ txs, step d r = commits txs d.
Proof.
  destruct r; simpl;
    [apply production_commits|apply purchases_commits|apply sales_commits].
Qed.

Lemma run_commits rs d : ∃ txs, run rs d = commits txs d.
Proof.
  revert d. induction rs as [|r rs IH]; intros d; simpl; [by exists []|].
  destruct (step_commits d r) as [txs1 Hstep].
  destruct (IH (step d r)) as [txs2 Hrun].
  exists (txs1 ++ txs2). change (run (r :: rs) d) with (run rs (step d r)).
  by rewrite Hrun, Hstep, commits_app.
Qed.

(** ** The ledger and the balances *)

Lemma commits_consistent txs d :
  ledgerConsistent d → ledgerConsistent (commits txs d).
Proof.
  intros Hd w p. unfold ledgerSum.
  rewrite currentQty_commits, commits_ledger, deltaSum_app.
  rewrite (Hd w p). unfold ledgerSum. lra.
Qed.

Lemma ledgerConsistent_fresh d :
  inventory_tbl d = ∅ → inventoryTx_tbl d = [] → ledgerConsistent d.
Proof.
  intros Hinv Htx w p. unfold currentQty, ledgerSum.
  rewrite Hinv, Htx, lookup_empty. simpl. lra.
Qed.

(** C4. From a store in which every balance equals the sum of the ledger
    entries of its pair (such as one with no inventory row and no ledger
    entry), any series of production, purchase and sale requests leads to a
    store with the same property: the requests write balances only through
    [applyTx], which appends the entry and then adds its quantity to the
    row, creating the row with that quantity when there is none. *)
Theorem ledger_consistent_run d rs :
  ledgerConsistent d →
  ledgerConsistent (run rs d) ∧
  ∃ txs, run rs d = commits txs d ∧
         inventoryTx_tbl (run rs d) = inventoryTx_tbl d ++ txs.
Proof.
  intros Hd. destruct (run_commits rs d) as [txs Hrun]. split.
  - rewrite Hrun. by apply commits_consistent.
  - exists txs. split; [done|]. rewrite Hrun. apply commits_ledger.
Qed.

Lemma ledger_consistent_run_witness :
  ledgerConsistent emptyStore ∧ ledgerConsistent (run sampleRequests emptyStore).
Proof.
  assert (ledgerConsistent emptyStore) as H0
    by (apply ledgerConsistent_fresh; reflexivity).
  split; [exact H0|].
  exact (proj1 (ledger_consistent_run emptyStore sampleRequests H0)).
Defined.

(** The seed script is no engine operation: its [setInv] writes a balance
    and no ledger entry. *)
Example setInv_not_consistent :
  ¬ ledgerConsistent (setInv "RAW_WH" "S" (10000 # 1) emptyStore).2.
Proof.
  intros H. specialize (H 1 1). vm_compute in H. discriminate.
Qed.

(** ** What a request may touch *)

Lemma commits_frame txs (keys : list (Z * Z)) d w p :
  Forall (λ tx, txKey tx ∈ keys) txs → (w, p) ∉ keys →
  inventory_tbl (commits txs d) !! (w, p) = inventory_tbl d !! (w, p).
Proof.
  intros Hall Hnotin. apply commits_other.
  eapply Forall_impl; [exact Hall|]. intros tx Hin Heq. apply Hnotin.
  unfold txKey in Hin. by rewrite Heq in Hin.
Qed.

Lemma production_keys d u b :
  txKey <$> (consumptionTxs d u b ++ outputTxs d u b) = namedPairs d (Production u b).
Proof.
  unfold consumptionTxs, outputTxs, rawTxs. simpl.
  rewrite !fmap_app, <- list_fmap_compose, <- app_assoc. done.
Qed.

Lemma purchase_keys d u items :
  Forall (λ tx, txKey tx ∈ namedPairs d (Purchase u items)) (purchaseTxs d u items).
Proof.
  unfold purchaseTxs. simpl.
  induction items as [|it items IH]; simpl; [constructor|].
  destruct (product_tbl d !! it_code it) as [p|]; [|constructor].
  destruct (routeWarehouse _ _ p) as [whId|]; [|constructor].
  destruct (whId =? 0); [constructor|]. constructor.
  - apply list_elem_of_here.
  - eapply Forall_impl; [exact IH|]. intros tx Htx. by apply list_elem_of_further.
Qed.

Lemma Forall_keys_fmap (txs : list inventoryTx) (keys : list (Z * Z)) :
  txKey <$> txs ⊆ keys → Forall (λ tx, txKey tx ∈ keys) txs.
Proof.
  intros Hsub. apply Forall_forall. intros tx Htx. apply Hsub.
  apply list_elem_of_fmap. by exists tx.
Qed.

(** C10. A request, successful or not, leaves the warehouses, the products,
    the formulas and the alert rules as they were, and leaves every
    inventory row as it was (present with the same quantity, or absent)
    except those of the pairs it names. *)
Theorem engine_frame d r :
  sameCatalog d (step d r) ∧
  ∀ w p, (w, p) ∉ namedPairs d r →
         inventory_tbl (step d r) !! (w, p) = inventory_tbl d !! (w, p).
Proof.
  split.
  { destruct (step_commits d r) as [txs ->]. apply commits_catalog. }
  intros w p Hnotin. destruct r as [u b|u items|u b]; unfold step.
  - destruct (production_cases u b d)
      as [[e He]|[_ [(e & He & _)|(_ & _ & Hok)]]].
    + by rewrite He.
    + rewrite He. cbn [snd].
      apply (commits_frame _ (namedPairs d (Production u b))); [|done].
      apply Forall_keys_fmap. rewrite <- production_keys, fmap_app.
      by apply list_subseteq_app_l.
    + rewrite Hok. cbn [snd].
      apply (commits_frame _ (namedPairs d (Production u b))); [|done].
      apply Forall_keys_fmap. by rewrite production_keys.
  - destruct (purchases_store u items d) as [->|(_ & _ & ->)]; [done|].
    apply (commits_frame _ (namedPairs d (Purchase u items))); [|done].
    apply purchase_keys.
  - destruct (decide (saleResolved d b)) as [Hres|Hnot].
    + rewrite (sales_resolved u b d Hres).
      destruct (Qltb _ _); [done|]. destruct (Qltb _ _); [done|].
      cbn [snd].
      apply (commits_frame _ (namedPairs d (Sale u b))); [|done].
      apply Forall_keys_fmap. done.
    + destruct (sales_unresolved u b d Hnot) as (e & He & _). by rewrite He.
Qed.

(** ** No negative stock *)

Lemma txDelta_nonneg w p tx : (0 <= tx_qty tx)%Q → (0 <= txDelta w p tx)%Q.
Proof. intros H. unfold txDelta. case_decide; [done|lra]. Qed.

Lemma production_nonNegative d u b :
  wellFormed d → nonNegative d → productionChecked d b →
  nonNegative (commits (consumptionTxs d u b ++ outputTxs d u b) d).
Proof.
  intros Hwf Hnn Hchecked w p.
  destruct (productionChecked_sizes b d Hchecked) as [Hs Hn].
  rewrite currentQty_commits, deltaSum_app.
  assert (0 <= deltaSum w p (outputTxs d u b))%Q as Hout.
  { unfold outputTxs. simpl.
    assert (0 <= inject_Z (pb_count b))%Q
      by (rewrite <- (Zle_Qle 0); lia).
    assert (0 <= inject_Z (pb_count b * pb_gallonSize b))%Q
      by (rewrite <- (Zle_Qle 0); gallon_cases Hs; lia).
    pose proof (txDelta_nonneg w p
      (mkTx PRODUCTION (warehouseId d "FG_WH")
         (productId d (packCode (pb_productCode b) (pb_gallonSize b)))
         (inject_Z (pb_count b)) u)).
    pose proof (txDelta_nonneg w p
      (mkTx PRODUCTION (warehouseId d "FG_WH")
         (productId d (litersCode (pb_productCode b)))
         (inject_Z (pb_count b * pb_gallonSize b)) u)).
    simpl in *. lra. }
  pose proof (Hnn w p) as Hcur.
  destruct (consumptionTxs_delta d u b w p Hwf Hchecked)
    as [(Hsum & _)|[(f & Hf & -> & -> & Hsum)|(-> & -> & Hsum)]].
  - rewrite Hsum. lra.
  - destruct Hchecked as (_ & _ & _ & _ & _ & Hall & _).
    apply (proj1 (Forall_forall _ _) Hall) in Hf as [_ Hneed].
    rewrite Hsum. lra.
  - destruct Hchecked as (_ & _ & _ & _ & _ & _ & _ & Hneed).
    rewrite Hsum. lra.
Qed.

Lemma saleResolved_sizes d b :
  saleResolved d b → sb_gallonSize b ∈ gallonSizes ∧ 0 < sb_count b.
Proof.
  intros (Hschema & _). unfold saleSchema in Hschema.
  apply andb_true_iff in Hschema as [Hschema Hn].
  apply andb_true_iff in Hschema as [_ Hs].
  split; [by apply isGallonSize_spec|by apply Z.ltb_lt].
Qed.

(** The sum of the two entries of a sale for one pair. *)
Lemma saleTxs_delta d u b w p :
  wellFormed d → saleResolved d b →
  (deltaSum w p (saleTxs d u b)
   == (if decide ((w, p) = (warehouseId d "FG_WH",
                            productId d (packCode (sb_productCode b) (sb_gallonSize b))))
       then - inject_Z (sb_count b) else 0)
      + (if decide ((w, p) = (warehouseId d "FG_WH",
                              productId d (litersCode (sb_productCode b))))
         then - inject_Z (sb_count b * sb_gallonSize b) else 0))%Q.
Proof.
  intros Hwf Hres. unfold saleTxs, deltaSum, txDelta. simpl.
  repeat case_decide; simplify_eq; lra.
Qed.

Lemma sale_nonNegative d u b :
  wellFormed d → nonNegative d → saleResolved d b →
  (inject_Z (sb_count b) <= availPack d b)%Q →
  (inject_Z (sb_count b * sb_gallonSize b) <= availLit d b)%Q →
  nonNegative (commits (saleTxs d u b) d).
Proof.
  intros Hwf Hnn Hres Hpack Hlit w p.
  destruct (saleResolved_sizes d b Hres) as [Hs Hn].
  pose proof Hres as (_ & _ & Hrpack & Hrlit).
  pose proof (pack_liters_ids_distinct d _ _ Hwf Hs Hrpack Hrlit) as Hne.
  rewrite currentQty_commits, (saleTxs_delta d u b w p Hwf Hres).
  pose proof (Hnn w p) as Hcur. unfold availPack, availLit in *.
  repeat case_decide; simplify_eq; lra.
Qed.

(** C6. From a well-formed store without a negative balance: a production
    or a sale that succeeds leaves no negative balance, and one that fails a
    stock pre-check (raw material, gallons, packs or liters) leaves the
    store as it was. *)
Theorem no_negative_stock d u :
  wellFormed d → nonNegative d →
  (∀ b, match production u b d with
        | (Ok _, d') => nonNegative d'
        | (Err e, d') => insufficiency e → d' = d
        end) ∧
  (∀ b, match sales u b d with
        | (Ok _, d') => nonNegative d'
        | (Err e, d') => insufficiency e → d' = d
        end).
Proof.
  intros Hwf Hnn. split; intros b.
  - destruct (production_cases u b d)
      as [[e ->]|[Hchecked [(e & -> & He)|(_ & _ & ->)]]].
    + done.
    + by destruct He as [[-> _]|[-> _]].
    + by apply production_nonNegative.
  - destruct (decide (saleResolved d b)) as [Hres|Hnot].
    + rewrite (sales_resolved u b d Hres).
      destruct (Qltb (availPack d b) _) eqn:Hpack; [done|].
      destruct (Qltb (availLit d b) _) eqn:Hlit; [done|].
      apply Qltb_ge in Hpack, Hlit. by apply sale_nonNegative.
    + by destruct (sales_unresolved u b d Hnot) as (e & -> & _).
Qed.

Lemma nonNegative_rows d :
  map_Forall (λ _ q, Qle_bool 0 q = true) (inventory_tbl d) → nonNegative d.
Proof.
  intros Hall w p. unfold currentQty.
  destruct (inventory_tbl d !! (w, p)) as [q|] eqn:Hq; [|lra].
  apply Qle_bool_iff. exact (Hall _ _ Hq).
Qed.

Lemma nonNegative_stockedStore : nonNegative stockedStore.
Proof.
  apply nonNegative_rows.
  refine (bool_decide_unpack (map_Forall _ _) _). vm_compute. exact I.
Defined.

Lemma no_negative_stock_witness :
  wellFormed stockedStore ∧ nonNegative stockedStore ∧
  nonNegative (production 7 tp10x20 stockedStore).2.
Proof.
  split; [exact wellFormed_stockedStore|].
  split; [exact nonNegative_stockedStore|].
  pose proof (proj1 (no_negative_stock stockedStore 7 wellFormed_stockedStore
                       nonNegative_stockedStore) tp10x20) as Hprod.
  destruct (production 7 tp10x20 stockedStore) as [[resp|e] d'] eqn:Hrun.
  - exact Hprod.
  - exfalso. vm_compute in Hrun. discriminate Hrun.
Defined.

(** ** Packs and liters move together *)

Lemma fgQty_commits txs d code :
  (fgQty (commits txs d) code == fgQty d code + fgDelta d code txs)%Q.
Proof.
  unfold fgQty, fgDelta.
  destruct (commits_catalog txs d) as (-> & -> & _).
  destruct (warehouse_tbl d !! "FG_WH"); [|lra].
  destruct (product_tbl d !! code); [|lra].
  apply currentQty_commits.
Qed.

Lemma fgQty_resolved d code :
  hasWarehouse d "FG_WH" → resolves d code →
  fgQty d code = currentQty d (warehouseId d "FG_WH") (productId d code).
Proof.
  intros [wh Hwh] [p Hp]. unfold fgQty, warehouseId, productId.
  by rewrite Hwh, Hp.
Qed.

Lemma fgDelta_app d code txs1 txs2 :
  (fgDelta d code (txs1 ++ txs2) == fgDelta d code txs1 + fgDelta d code txs2)%Q.
Proof.
  unfold fgDelta. destruct (warehouse_tbl d !! "FG_WH"); [|lra].
  destruct (product_tbl d !! code); [|lra]. apply deltaSum_app.
Qed.

(** Entries outside the finished-goods warehouse. *)
Lemma fgDelta_avoid d code txs :
  Forall (λ tx, tx_warehouseId tx ≠ warehouseId d "FG_WH") txs →
  fgDelta d code txs = 0%Q.
Proof.
  intros Hall. unfold fgDelta, warehouseId in *.
  destruct (warehouse_tbl d !! "FG_WH") as [wh|]; [|done].
  destruct (product_tbl d !! code) as [p|]; [|done].
  apply deltaSum_other. eapply Forall_impl; [exact Hall|].
  intros tx Hne [= Heq _]. done.
Qed.

(** Two entries in the finished-goods warehouse, for two products. *)
Lemma fgDelta_pair d code k c1 q1 c2 q2 u :
  wellFormed d → hasWarehouse d "FG_WH" → resolves d c1 → resolves d c2 →
  (fgDelta d code [mkTx k (warehouseId d "FG_WH") (productId d c1) q1 u;
                   mkTx k (warehouseId d "FG_WH") (productId d c2) q2 u]
   == (if decide (code = c1) then q1 else 0)
      + (if decide (code = c2) then q2 else 0))%Q.
Proof.
  intros Hwf [wh Hwh] Hc1 Hc2. unfold fgDelta, warehouseId. rewrite Hwh.
  destruct (product_tbl d !! code) as [p|] eqn:Hp.
  - assert (resolves d code) as Hcode by (by exists p).
    assert (p_id p = productId d code) as -> by (unfold productId; by rewrite Hp).
    assert (∀ c q, resolves d c →
              txDelta (wh_id wh) (productId d code)
                (mkTx k (wh_id wh) (productId d c) q u)
              = if decide (code = c) then q else 0%Q) as Hdelta.
    { intros c q Hc. destruct (decide (code = c)) as [->|Hne].
      - apply txDelta_same.
      - apply txDelta_product. intros Heq. apply Hne.
        by apply (productId_inj d). }
    simpl. rewrite !Hdelta by done. lra.
  - assert (code ≠ c1) by (intros ->; destruct Hc1; congruence).
    assert (code ≠ c2) by (intros ->; destruct Hc2; congruence).
    rewrite !decide_False by done. lra.
Qed.






Lemma consumptionTxs_outside_fg d u b :
  wellFormed d → productionChecked d b →
  Forall (λ tx, tx_warehouseId tx ≠ warehouseId d "FG_WH") (consumptionTxs d u b).
Proof.
  intros Hwf Hchecked. pose proof Hchecked as (_ & HR & HG & HF & _).
  destruct (fixed_warehouses_distinct d Hwf HR HG HF) as (_ & HRF & HGF).
  unfold consumptionTxs, rawTxs. apply Forall_app. split.
  - apply Forall_fmap, Forall_forall. by intros f _.
  - by repeat constructor.
Qed.

Lemma purchaseTxs_outside_fg d u items :
  wellFormed d → hasWarehouse d "RAW_WH" → hasWarehouse d "GAL_WH" →
  Forall (λ tx, tx_warehouseId tx ≠ warehouseId d "FG_WH") (purchaseTxs d u items).
Proof.
  intros Hwf HR HG. unfold purchaseTxs.
  eapply Forall_impl; [apply purchasedTxs_entries|]. simpl.
  intros tx (_ & _ & Hnz & Hwh & _) Heq.
  destruct (warehouse_tbl d !! "FG_WH") as [wh|] eqn:HFG.
  - assert (hasWarehouse d "FG_WH") as HF by (by exists wh).
    destruct (fixed_warehouses_distinct d Hwf HR HG HF) as (_ & HRF & HGF).
    destruct Hwh; congruence.
  - unfold warehouseId in Heq at 1. rewrite HFG in Heq. done.
Qed.











(** ** Active alerts *)

Lemma alertRules_run rules results d :
  alertRules rules results d = (Ok (results ++ concat (ruleAlerts d <$> rules)), d).
Proof.
  revert results. induction rules as [|r rules IH]; intros results; simpl.
  - by rewrite app_nil_r.
  - unfold ruleAlerts, currentQty.
    destruct (warehouse_tbl d !! r_warehouseCode r) as [wh|]; [|apply IH].
    destruct (product_tbl d !! r_productCode r) as [pr|]; [|apply IH].
    destruct (Qltb _ _); [|apply IH]. rewrite IH. by rewrite <- app_assoc.
Qed.



(** ** Failures and what has been written when they are answered *)

(** A sale that fails has written nothing. *)
Lemma sales_failure_unchanged u b d e d' :
  sales u b d = (Err e, d') → d' = d.
Proof.
  destruct (decide (saleResolved d b)) as [Hres|Hnot].
  - rewrite (sales_resolved u b d Hres).
    destruct (Qltb _ _); [congruence|]. destruct (Qltb _ _); [congruence|done].
  - destruct (sales_unresolved u b d Hnot) as (e' & -> & _). congruence.
Qed.

(** A production that fails has written nothing when the pack and the
    liters of the family are in the catalog. *)
Lemma production_failure_unchanged u b d e d' :
  resolves d (packCode (pb_productCode b) (pb_gallonSize b)) →
  resolves d (litersCode (pb_productCode b)) →
  production u b d = (Err e, d') → d' = d.
Proof.
  intros Hpack Hlit.
  destruct (production_cases u b d)
    as [[e' ->]|[_ [(e' & -> & [[_ Hno]|[_ Hno]])|(_ & _ & ->)]]];
    [congruence|done|done|done].
Qed.

(** C1. A failure can be answered after entries have been written.  A
    production that passes its stock checks writes the entries of the raw
    materials and of the gallons before it looks up the pack and liter
    products: for a family with a formula and no pack product the answer is
    [UnknownProduct], the two consuming entries are in the ledger and their
    balances are lowered.  A purchase whose second item has a code the
    catalog lacks is answered with [UnknownProduct] after the entry of the
    first item has been written. *)
Theorem failure_after_partial_commit :
  (production 7 (mkProductionBody "MN" 10 20) orphanFormulaStore
   = (Err (UnknownProduct "MN_PACK_10"),
      commits [mkTx PRODUCTION 1 1 (- ((18 # 100) * inject_Z 200))%Q 7;
               mkTx PRODUCTION 3 7 (- inject_Z 20)%Q 7] orphanFormulaStore)
   ∧ inventoryTx_tbl (production 7 (mkProductionBody "MN" 10 20) orphanFormulaStore).2
     = inventoryTx_tbl orphanFormulaStore
       ++ [mkTx PRODUCTION 1 1 (- ((18 # 100) * inject_Z 200))%Q 7;
           mkTx PRODUCTION 3 7 (- inject_Z 20)%Q 7]
   ∧ (currentQty orphanFormulaStore 1 1 == 1000 # 1)%Q
   ∧ (currentQty (production 7 (mkProductionBody "MN" 10 20) orphanFormulaStore).2 1 1
      == 964 # 1)%Q
   ∧ (currentQty orphanFormulaStore 3 7 == 50 # 1)%Q
   ∧ (currentQty (production 7 (mkProductionBody "MN" 10 20) orphanFormulaStore).2 3 7
      == 30 # 1)%Q)
  ∧ purchases 1 [mkItem "P" (1000 # 1); mkItem "ZZ" (1 # 1)] emptyStore
    = (Err (UnknownProduct "ZZ"),
       commits [mkTx PURCHASE 1 2 (1000 # 1) 1] emptyStore)
  ∧ inventoryTx_tbl
      (purchases 1 [mkItem "P" (1000 # 1); mkItem "ZZ" (1 # 1)] emptyStore).2
    = [mkTx PURCHASE 1 2 (1000 # 1) 1].
Proof. repeat split; vm_compute; reflexivity. Qed.

(** C2. The purchase loop writes the entry of an item before it looks at
    the next one: a batch whose second item is a pack product is answered
    with [DisallowedPurchaseTarget] for that item, and one whose second
    item has an unknown code with [UnknownProduct]; either way the entry
    and the balance of the first item are in the store. *)
Theorem purchase_partial_commit :
  purchases 1 [mkItem "P" (1000 # 1); mkItem "TP_PACK_5" (1 # 1)] emptyStore
  = (Err (DisallowedPurchaseTarget "TP_PACK_5"),
     commits [mkTx PURCHASE 1 2 (1000 # 1) 1] emptyStore)
  ∧ inventoryTx_tbl
      (purchases 1 [mkItem "P" (1000 # 1); mkItem "TP_PACK_5" (1 # 1)] emptyStore).2
    = [mkTx PURCHASE 1 2 (1000 # 1) 1]
  ∧ inventory_tbl emptyStore !! (1, 2) = None
  ∧ inventory_tbl
      (purchases 1 [mkItem "P" (1000 # 1); mkItem "TP_PACK_5" (1 # 1)] emptyStore).2
    !! (1, 2) = Some (1000 # 1)%Q
  ∧ inventory_tbl
      (purchases 1 [mkItem "P" (1000 # 1); mkItem "ZZ" (1 # 1)] emptyStore).2
    !! (1, 2) = Some (1000 # 1)%Q.
Proof. repeat split; vm_compute; reflexivity. Qed.

(** In general the store after a purchase is the commit of the entries of
    the items before the first one the loop rejects; a batch the loop
    rejects at its first item writes nothing. *)
Lemma purchases_first_item_rejected u it items d e :
  (purchaseItems (warehouseId d "RAW_WH") (warehouseId d "GAL_WH") u [it] d).1
  = Err e →
  (purchases u (it :: items) d).2 = d.
Proof.
  intros Hfirst.
  destruct (purchases_store u (it :: items) d) as [Hsame|(_ & _ & ->)]; [done|].
  unfold purchaseTxs. simpl in *.
  destruct (product_tbl d !! it_code it) as [p|] eqn:Hp; [|done].
  rewrite (bind_Ok _ _ _ _ _ (getProductByCode_some _ _ _ Hp)) in Hfirst.
  destruct (routeWarehouse _ _ p) as [whId|]; [|done].
  destruct (whId =? 0); [done|].
  by rewrite (bind_Ok _ _ _ _ _ (applyTx_commit _ _ _ _ _ _)) in Hfirst.
Qed.

(** ** Resolution failures *)


Lemma purchaseItems_resolved RAW GAL u items d :
  (purchaseItems RAW GAL u items d).1 = Ok tt →
  Forall (λ it, resolves d (it_code it)) items.
Proof.
  revert d. induction items as [|it items IH]; intros d; simpl; [constructor|].
  destruct (product_tbl d !! it_code it) as [p|] eqn:Hp.
  2:{ by rewrite (bind_Err _ _ _ _ _ (getProductByCode_none _ _ Hp)). }
  rewrite (bind_Ok _ _ _ _ _ (getProductByCode_some _ _ _ Hp)).
  destruct (routeWarehouse RAW GAL p) as [whId|]; [|done].
  destruct (whId =? 0); [done|].
  rewrite (bind_Ok _ _ _ _ _ (applyTx_commit _ _ _ _ _ _)).
  intros Hok. constructor; [by exists p|].
  apply IH in Hok. eapply Forall_impl; [exact Hok|]. by intros it' Hit'.
Qed.

Lemma purchases_resolved u items d :
  (purchases u items d).1 = Ok tt →
  hasWarehouse d "RAW_WH" ∧ hasWarehouse d "GAL_WH" ∧
  Forall (λ it, resolves d (it_code it)) items.
Proof.
  unfold purchases, hasWarehouse.
  destruct (purchasesSchema items); cbn [negb]; [|done].
  destruct (warehouse_tbl d !! "RAW_WH") as [RAW|] eqn:HRAW.
  2:{ by rewrite (bind_Err _ _ _ _ _ (getWarehouseId_none _ _ HRAW)). }
  rewrite (bind_Ok _ _ _ _ _ (getWarehouseId_some _ _ _ HRAW)).
  destruct (warehouse_tbl d !! "GAL_WH") as [GAL|] eqn:HGAL.
  2:{ by rewrite (bind_Err _ _ _ _ _ (getWarehouseId_none _ _ HGAL)). }
  rewrite (bind_Ok _ _ _ _ _ (getWarehouseId_some _ _ _ HGAL)).
  intros Hok. do 2 (split; [done|]). by apply purchaseItems_resolved in Hok.
Qed.



(** * Further properties of the handlers *)

(** ** [applyTx] and [getInv] *)

(** X1. Reading a pair after [applyTx] gives the balance before plus the
    quantity written when the pair is the one written, and the balance
    before otherwise; the ledger has grown by that one entry. *)
Theorem applyTx_then_getInv k w p q u w' p' d :
  ∃ v d',
    (applyTx k w p q u ≫= λ _, getInv w' p') d = (Ok v, d') ∧
    (v == currentQty d w' p' + (if decide ((w, p) = (w', p')) then q else 0))%Q ∧
    inventoryTx_tbl d' = inventoryTx_tbl d ++ [mkTx k w p q u] ∧
    sameCatalog d d'.
Proof.
  eexists _, _. split.
  - rewrite (bind_Ok _ _ _ _ _ (applyTx_commit _ _ _ _ _ _)).
    apply getInv_currentQty.
  - split; [|split; [done|apply commit_catalog]].
    rewrite currentQty_commit. unfold txDelta. simpl. reflexivity.
Qed.




(** ** Production: when it succeeds and what it reports *)









(** ** Sale: when it succeeds and what it does to the balances *)




(** ** Purchase: what a successful batch writes, and what no batch does *)

Lemma purchaseItems_ok_txs RAW GAL u items d0 d :
  product_tbl d = product_tbl d0 →
  (purchaseItems RAW GAL u items d).1 = Ok tt →
  Forall (λ it, ∃ p whId, product_tbl d0 !! it_code it = Some p ∧
                          routeWarehouse RAW GAL p = Some whId ∧ whId ≠ 0) items ∧
  purchasedTxs d0 RAW GAL u items
  = (λ it, mkTx PURCHASE
             match product_tbl d0 !! it_code it with
             | Some p => match routeWarehouse RAW GAL p with
                         | Some whId => whId
                         | None => 0
                         end
             | None => 0
             end
             (productId d0 (it_code it)) (it_qty it) u) <$> items.
Proof.
  revert d. induction items as [|it items IH]; intros d Hcat; [done|].
  cbn [purchaseItems].
  destruct (product_tbl d !! it_code it) as [p|] eqn:Hp.
  2:{ by rewrite (bind_Err _ _ _ _ _ (getProductByCode_none _ _ Hp)). }
  rewrite (bind_Ok _ _ _ _ _ (getProductByCode_some _ _ _ Hp)).
  destruct (routeWarehouse RAW GAL p) as [whId|] eqn:Hroute; [|done].
  destruct (whId =? 0) eqn:Hz; [done|].
  rewrite (bind_Ok _ _ _ _ _ (applyTx_commit _ _ _ _ _ _)).
  intros Hok. apply IH in Hok as [Hall Htxs]; [|exact Hcat].
  rewrite Hcat in Hp. split.
  - constructor; [|done]. exists p, whId. by apply Z.eqb_neq in Hz.
  - cbn [purchasedTxs]. rewrite fmap_cons, Hp, Hroute, Hz, Htxs.
    unfold productId at 2. by rewrite Hp.
Qed.

Lemma routeWarehouse_type RAW GAL p whId :
  routeWarehouse RAW GAL p = Some whId →
  p_type p = "RAW" ∧ whId = RAW ∨ p_type p = "GALLON" ∧ whId = GAL.
Proof.
  unfold routeWarehouse.
  destruct (String.eqb (p_type p) "RAW") eqn:Hraw.
  - apply String.eqb_eq in Hraw. intros [= <-]. by left.
  - destruct (String.eqb (p_type p) "GALLON") eqn:Hgal; [|done].
    apply String.eqb_eq in Hgal. intros [= <-]. by right.
Qed.

(** X7. A purchase that succeeds had a non-empty list of items, each with
    a code of the catalog whose product has type RAW or GALLON; it has
    appended one entry per item, in the order of the list, in the raw
    warehouse for RAW and in the gallon warehouse for GALLON, with the
    quantity of the item; and every balance has grown by the sum of the
    quantities of the items of its pair (an item listed twice counts
    twice). *)
Theorem purchase_success_effect u items d :
  (purchases u items d).1 = Ok tt →
  items ≠ [] ∧
  Forall (λ it, ∃ p, product_tbl d !! it_code it = Some p ∧
                     (p_type p = "RAW" ∧ itemWarehouse d it = warehouseId d "RAW_WH"
                      ∨ p_type p = "GALLON" ∧
                        itemWarehouse d it = warehouseId d "GAL_WH")) items ∧
  (purchases u items d).2 = commits (itemTx d u <$> items) d ∧
  inventoryTx_tbl (purchases u items d).2
  = inventoryTx_tbl d ++ (itemTx d u <$> items) ∧
  ∀ w p, (currentQty (purchases u items d).2 w p
          == currentQty d w p + deltaSum w p (itemTx d u <$> items))%Q.
Proof.
  intros Hok.
  assert (items ≠ []) as Hne.
  { intros ->. by vm_compute in Hok. }
  assert (purchaseTxs d u items = itemTx d u <$> items ∧
          Forall (λ it, ∃ p whId, product_tbl d !! it_code it = Some p ∧
                    routeWarehouse (warehouseId d "RAW_WH")
                      (warehouseId d "GAL_WH") p = Some whId ∧ whId ≠ 0) items ∧
          (purchases u items d).2 = commits (purchaseTxs d u items) d)
    as (Htxs & Hall & Hrun).
  { destruct (purchases_resolved u items d Hok) as ([RAW HRAW] & [GAL HGAL] & _).
    unfold purchases, purchaseTxs, warehouseId in *.
    destruct (purchasesSchema items); cbn [negb] in *; [|done].
    rewrite HRAW, HGAL.
    rewrite (bind_Ok _ _ _ _ _ (getWarehouseId_some _ _ _ HRAW)) in *.
    rewrite (bind_Ok _ _ _ _ _ (getWarehouseId_some _ _ _ HGAL)) in *.
    destruct (purchaseItems_ok_txs _ _ u items d d eq_refl Hok) as [Hall Htxs].
    split; [|split; [done|apply purchaseItems_store]].
    rewrite Htxs. unfold itemTx, itemWarehouse, warehouseId.
    by rewrite HRAW, HGAL. }
  split; [done|]. split.
  - eapply Forall_impl; [exact Hall|]. simpl.
    intros it (p & whId & Hp & Hroute & _). exists p. split; [done|].
    unfold itemWarehouse. rewrite Hp, Hroute.
    apply routeWarehouse_type in Hroute. tauto.
  - rewrite Hrun, Htxs. split; [done|]. split; [apply commits_ledger|].
    intros w p. apply currentQty_commits.
Qed.

Lemma purchase_success_effect_witness :
  (currentQty (purchases 1 [mkItem "P" (7 # 1); mkItem "P" (5 # 1)] emptyStore).2 1 2
   == currentQty emptyStore 1 2
      + deltaSum 1 2 (itemTx emptyStore 1 <$> [mkItem "P" (7 # 1); mkItem "P" (5 # 1)]))%Q
  ∧ (deltaSum 1 2 (itemTx emptyStore 1 <$> [mkItem "P" (7 # 1); mkItem "P" (5 # 1)])
     == 12 # 1)%Q.
Proof.
  split; [|vm_compute; reflexivity].
  assert ((purchases 1 [mkItem "P" (7 # 1); mkItem "P" (5 # 1)] emptyStore).1 = Ok tt)
    as Hok by (vm_compute; reflexivity).
  destruct (purchase_success_effect 1 _ emptyStore Hok) as (_ & _ & _ & _ & Hbal).
  exact (Hbal 1 2).
Defined.

Lemma deltaSum_nonneg w p txs :
  Forall (λ tx, (0 <= tx_qty tx)%Q) txs → (0 <= deltaSum w p txs)%Q.
Proof.
  induction 1 as [|tx txs Hq _ IH]; simpl; [lra|].
  pose proof (txDelta_nonneg w p tx Hq). lra.
Qed.

Lemma purchasesSchema_positive items :
  purchasesSchema items = true → Forall (λ it, (0 < it_qty it)%Q) items.
Proof.
  unfold purchasesSchema. intros H. apply andb_true_iff in H as [H _].
  apply Forall_forall. intros it Hit. apply list_elem_of_In in Hit.
  apply (proj1 (forallb_forall _ _) H) in Hit.
  apply andb_true_iff in Hit as [_ Hq]. by apply Qltb_lt.
Qed.

(** X8. No purchase, accepted or rejected, lowers a balance. *)
Theorem purchase_never_lowers u items d w p :
  (currentQty d w p <= currentQty (purchases u items d).2 w p)%Q.
Proof.
  destruct (purchasesSchema items) eqn:Hschema.
  2:{ unfold purchases. rewrite Hschema. simpl. lra. }
  destruct (purchases_store u items d) as [->|(_ & _ & ->)]; [lra|].
  rewrite currentQty_commits.
  assert (0 <= deltaSum w p (purchaseTxs d u items))%Q; [|lra].
  apply deltaSum_nonneg. unfold purchaseTxs.
  eapply Forall_impl; [apply purchasedTxs_entries|]. simpl.
  intros tx (_ & _ & _ & _ & it & Hit & _ & _ & ->).
  apply purchasesSchema_positive in Hschema.
  apply (proj1 (Forall_forall _ _) Hschema) in Hit. lra.
Qed.

(** X9. On a store that satisfies the keys of the schema no purchase,
    accepted or rejected, writes an inventory row of the finished-goods
    warehouse. *)
Theorem purchase_outside_finished_goods u items d p :
  wellFormed d →
  inventory_tbl (purchases u items d).2 !! (warehouseId d "FG_WH", p)
  = inventory_tbl d !! (warehouseId d "FG_WH", p).
Proof.
  intros Hwf.
  destruct (purchases_store u items d) as [->|(HR & HG & ->)]; [done|].
  apply commits_other.
  eapply Forall_impl; [by apply purchaseTxs_outside_fg|].
  intros tx Hne [= Heq _]. done.
Qed.

Lemma purchase_outside_finished_goods_witness :
  inventory_tbl
    (purchases 1 [mkItem "P" (7 # 1); mkItem "TP_PACK_5" (5 # 1)] packedStore).2
  !! (warehouseId packedStore "FG_WH", 9)
  = inventory_tbl packedStore !! (warehouseId packedStore "FG_WH", 9).
Proof.
  exact (purchase_outside_finished_goods 1 _ packedStore 9 wellFormed_packedStore).
Defined.

(** ** Production followed by the sale of what was produced *)

Lemma saleTxs_outside d u b w p :
  w ≠ warehouseId d "FG_WH" →
  inventory_tbl (commits (saleTxs d u b) d) !! (w, p) = inventory_tbl d !! (w, p).
Proof.
  intros Hw. apply commits_other. unfold saleTxs.
  repeat constructor; simpl; congruence.
Qed.

(** X10. On a store that satisfies the keys of the schema, with no
    negative pack or liter balance for the family, a successful production
    can be followed by the sale of the same family, size and count: the
    sale succeeds, every finished-goods balance is then what it was before
    the production, and the sale leaves the rows of the other warehouses
    as the production left them (the raw materials and gallons stay
    consumed). *)
Theorem production_then_sale_restores u u' b d resp d1 :
  wellFormed d →
  (0 <= fgQty d (packCode (pb_productCode b) (pb_gallonSize b)))%Q →
  (0 <= fgQty d (litersCode (pb_productCode b)))%Q →
  production u b d = (Ok resp, d1) →
  ∃ resp' d2,
    sales u' (mkSaleBody (pb_productCode b) (pb_gallonSize b) (pb_count b)) d1
    = (Ok resp', d2) ∧
    (∀ code, (fgQty d2 code == fgQty d code)%Q) ∧
    ∀ w p, w ≠ warehouseId d "FG_WH" →
           inventory_tbl d2 !! (w, p) = inventory_tbl d1 !! (w, p).
Proof.
  intros Hwf Hpack0 Hlit0 Hrun.
  apply production_ok in Hrun as (Hchecked & Hpack & Hlit & _ & ->).
  set (F := pb_productCode b) in *. set (s := pb_gallonSize b) in *.
  set (n := pb_count b) in *.
  set (d1 := commits (consumptionTxs d u b ++ outputTxs d u b) d).
  set (b' := mkSaleBody F s n).
  destruct (productionChecked_sizes b d Hchecked) as [Hs Hn].
  pose proof Hchecked as (Hschema & _ & _ & HF & _).
  destruct (commits_catalog (consumptionTxs d u b ++ outputTxs d u b) d)
    as (Hw1 & Hp1 & Hf1 & Hr1). fold d1 in Hw1, Hp1, Hf1, Hr1.
  assert (wellFormed d1) as Hwf1.
  { unfold wellFormed. by rewrite Hw1, Hp1, Hf1. }
  assert (saleResolved d1 b') as Hres.
  { unfold saleResolved, hasWarehouse, resolves. rewrite Hw1, Hp1.
    split; [exact Hschema|done]. }
  assert (∀ code, (fgQty d1 code
                   == fgQty d code
                      + ((if decide (code = packCode F s) then inject_Z n else 0)
                         + (if decide (code = litersCode F)
                            then inject_Z (n * s) else 0)))%Q) as H1.
  { intros code. unfold d1. rewrite fgQty_commits, fgDelta_app.
    rewrite (fgDelta_avoid d code (consumptionTxs d u b))
      by (by apply consumptionTxs_outside_fg).
    unfold outputTxs. rewrite fgDelta_pair by done. fold F s n. lra. }
  assert (warehouseId d1 "FG_WH" = warehouseId d "FG_WH") as HFGid
    by (unfold warehouseId; by rewrite Hw1).
  assert (∀ c, productId d1 c = productId d c) as Hpid
    by (intros c; unfold productId; by rewrite Hp1).
  assert (∀ code, (fgQty (commits (saleTxs d1 u' b') d1) code
                   == fgQty d1 code
                      + ((if decide (code = packCode F s) then - inject_Z n else 0)
                         + (if decide (code = litersCode F)
                            then - inject_Z (n * s) else 0)))%Q) as H2.
  { intros code. rewrite fgQty_commits. unfold saleTxs. simpl.
    destruct Hres as (_ & ? & ? & ?). rewrite fgDelta_pair by done. lra. }
  assert (packCode F s ≠ litersCode F) as Hne by (by apply packCode_litersCode).
  assert (inject_Z n <= availPack d1 b')%Q as Havail.
  { unfold availPack. simpl.
    destruct Hres as (_ & ? & ? & ?). rewrite <- fgQty_resolved by done.
    rewrite H1, decide_True, decide_False by done. lra. }
  assert (inject_Z (n * s) <= availLit d1 b')%Q as Havail'.
  { unfold availLit. simpl.
    destruct Hres as (_ & ? & ? & ?). rewrite <- fgQty_resolved by done.
    rewrite H1, decide_False, decide_True by done. lra. }
  apply Qltb_ge in Havail, Havail'.
  rewrite (sales_resolved u' b' d1 Hres). simpl sb_count. simpl sb_gallonSize.
  rewrite Havail, Havail'. eexists _, _. split; [done|]. split.
  - intros code. rewrite H2, H1. repeat case_decide; lra.
  - intros w p Hw. apply saleTxs_outside. by rewrite HFGid.
Qed.

Lemma production_then_sale_restores_witness :
  ∃ resp' d2,
    sales 3 (mkSaleBody "TP" 10 20) (production 7 tp10x20 stockedStore).2
    = (Ok resp', d2) ∧
    (∀ code, (fgQty d2 code == fgQty stockedStore code)%Q) ∧
    ∀ w p, w ≠ warehouseId stockedStore "FG_WH" →
           inventory_tbl d2 !! (w, p)
           = inventory_tbl (production 7 tp10x20 stockedStore).2 !! (w, p).
Proof.
  assert (production 7 tp10x20 stockedStore
          = (Ok (mkProductionResponse "TP" 10 20 200
                   [mkConsumed "P" ((53 # 100) * inject_Z 200)%Q;
                    mkConsumed "S" ((304 # 1000) * inject_Z 200)%Q]),
             (production 7 tp10x20 stockedStore).2)) as Hrun
    by (vm_compute; reflexivity).
  refine (production_then_sale_restores 7 3 tp10x20 stockedStore _ _
            wellFormed_stockedStore _ _ Hrun); vm_compute; discriminate.
Defined.

(** ** The entries of a request *)

Lemma rawTxs_tagged d RAW l u fs :
  Forall (λ tx, tx_txType tx = PRODUCTION ∧ tx_userId tx = u) (rawTxs d RAW l u fs).
Proof. unfold rawTxs. apply Forall_fmap, Forall_forall. by intros f _. Qed.

(** X11. Whatever a request appends to the ledger carries the kind of the
    request (PRODUCTION, PURCHASE or SALE) and the user of the request;
    the entries that were in the ledger stay, in their order, before the
    new ones. *)
Theorem entries_carry_kind_and_user d r :
  ∃ txs, inventoryTx_tbl (step d r) = inventoryTx_tbl d ++ txs ∧
         Forall (λ tx, tx_txType tx = kindOf r ∧ tx_userId tx = userOf r) txs.
Proof.
  destruct r as [u b|u items|u b]; simpl.
  - destruct (production_cases u b d)
      as [[e ->]|[_ [(e & -> & _)|(_ & _ & ->)]]].
    + exists []. by rewrite app_nil_r.
    + eexists. split; [apply commits_ledger|].
      unfold consumptionTxs. apply Forall_app. split; [apply rawTxs_tagged|].
      by repeat constructor.
    + eexists. split; [apply commits_ledger|].
      unfold consumptionTxs, outputTxs. repeat (apply Forall_app; split).
      * apply rawTxs_tagged.
      * by repeat constructor.
      * by repeat constructor.
  - destruct (purchases_store u items d) as [->|(_ & _ & ->)].
    + exists []. by rewrite app_nil_r.
    + eexists. split; [apply commits_ledger|]. unfold purchaseTxs.
      eapply Forall_impl; [apply purchasedTxs_entries|]. simpl.
      by intros tx (? & ? & _).
  - destruct (decide (saleResolved d b)) as [Hres|Hnot].
    + rewrite (sales_resolved u b d Hres).
      destruct (Qltb _ _); [exists []; by rewrite app_nil_r|].
      destruct (Qltb _ _); [exists []; by rewrite app_nil_r|].
      eexists. split; [apply commits_ledger|]. unfold saleTxs.
      by repeat constructor.
    + destruct (sales_unresolved u b d Hnot) as (e & -> & _).
      exists []. by rewrite app_nil_r.
Qed.

(** ** [setInv] *)

(** X12. For a warehouse and a product of the catalog [setInv] succeeds
    and the balance of the pair is then the quantity given, whatever it
    was; the other inventory rows, the ledger and the catalog are not
    touched; and doing it again changes nothing. *)
Theorem setInv_sets wc pc q d wh pr :
  warehouse_tbl d !! wc = Some wh →
  product_tbl d !! pc = Some pr →
  ∃ d', setInv wc pc q d = (Ok tt, d') ∧
        getInv (wh_id wh) (p_id pr) d' = (Ok q, d') ∧
        (∀ key, key ≠ (wh_id wh, p_id pr) →
                inventory_tbl d' !! key = inventory_tbl d !! key) ∧
        inventoryTx_tbl d' = inventoryTx_tbl d ∧
        sameCatalog d d' ∧
        setInv wc pc q d' = (Ok tt, d').
Proof.
  intros Hwh Hpr. unfold setInv. rewrite Hwh, Hpr. eexists. split; [done|].
  simpl. rewrite Hwh, Hpr. split; [|split; [|split; [done|split; [done|]]]].
  - unfold getInv. simpl. by rewrite lookup_insert_eq.
  - intros key Hkey. by rewrite lookup_insert_ne.
  - by rewrite insert_insert_eq.
Qed.

Lemma setInv_sets_witness :
  ∃ d', setInv "RAW_WH" "S" (10000 # 1) stockedStore = (Ok tt, d') ∧
        getInv 1 1 d' = (Ok (10000 # 1)%Q, d').
Proof.
  destruct (setInv_sets "RAW_WH" "S" (10000 # 1) stockedStore
              (mkWarehouse 1 "raw materials") (mkProduct 1 "S" "RAW" "kg")
              eq_refl eq_refl) as (d' & Hset & Hget & _).
  exists d'. by split.
Defined.

(** ** What the alert evaluator reports *)

Lemma ruleAlerts_spec d r a :
  a ∈ ruleAlerts d r ↔
  ∃ wh pr, warehouse_tbl d !! r_warehouseCode r = Some wh ∧
           product_tbl d !! r_productCode r = Some pr ∧
           (currentQty d (wh_id wh) (p_id pr) < r_minQty r)%Q ∧
           a = mkAlert (wh_name wh) (r_productCode r)
                 (currentQty d (wh_id wh) (p_id pr)) (r_minQty r) (p_unit pr).
Proof.
  unfold ruleAlerts.
  destruct (warehouse_tbl d !! r_warehouseCode r) as [wh|].
  2:{ split; [by intros ?%elem_of_nil|by intros (? & ? & ? & _)]. }
  destruct (product_tbl d !! r_productCode r) as [pr|].
  2:{ split; [by intros ?%elem_of_nil|by intros (? & ? & _ & ? & _)]. }
  destruct (Qltb _ _) eqn:Hlt.
  - apply Qltb_lt in Hlt. rewrite list_elem_of_singleton. split.
    + intros ->. by exists wh, pr.
    + by intros (? & ? & [= <-] & [= <-] & _ & ->).
  - apply Qltb_ge in Hlt. split; [by intros ?%elem_of_nil|].
    intros (? & ? & [= <-] & [= <-] & Hlt' & _). lra.
Qed.

(** X13. The evaluator never fails and never writes.  Its answer holds a
    record exactly for the rules whose warehouse and product are in the
    catalog and whose balance is strictly below [minQty]: every record
    names the warehouse, the product code, that balance, that minimum and
    the unit of the product; and there are at most as many records as
    rules. *)
Theorem alerts_are_the_breaches d :
  ∃ results,
    alertsActive d = (Ok results, d) ∧
    (length results ≤ length (alertRule_tbl d))%nat ∧
    ∀ a, a ∈ results ↔
         ∃ r wh pr, r ∈ alertRule_tbl d ∧
                    warehouse_tbl d !! r_warehouseCode r = Some wh ∧
                    product_tbl d !! r_productCode r = Some pr ∧
                    (currentQty d (wh_id wh) (p_id pr) < r_minQty r)%Q ∧
                    a = mkAlert (wh_name wh) (r_productCode r)
                          (currentQty d (wh_id wh) (p_id pr)) (r_minQty r)
                          (p_unit pr).
Proof.
  exists (concat (ruleAlerts d <$> alertRule_tbl d)).
  split; [apply (alertRules_run _ [] d)|].
  induction (alertRule_tbl d) as [|r rules [IHlen IH]].
  - split; [done|]. intros a. split; [by intros ?%elem_of_nil|].
    by intros (? & ? & ? & ?%elem_of_nil & _).
  - rewrite fmap_cons. cbn [concat]. split.
    + rewrite length_app. cbn [length].
      assert (length (ruleAlerts d r) ≤ 1)%nat; [|lia].
      unfold ruleAlerts. repeat case_match; simpl; lia.
    + intros a. rewrite elem_of_app, ruleAlerts_spec, IH. split.
      * intros [(wh & pr & ?)|(r' & wh & pr & Hin & ?)].
        -- exists r, wh, pr. split; [apply list_elem_of_here|done].
        -- exists r', wh, pr. split; [by apply list_elem_of_further|done].
      * intros (r' & wh & pr & Hin & H).
        apply elem_of_cons in Hin as [->|Hin].
        -- left. by exists wh, pr.
        -- right. by exists r', wh, pr.
Qed.

(** * Properties of the HTTP layer *)

Lemma prefix_append p t : String.prefix p (p +:+ t) = true.
Proof.
  induction p as [|c p IH]; [by destruct t|].
  rewrite append_cons. simpl. by destruct (Ascii.ascii_dec c c).
Qed.

Lemma slice_append p t : slice (String.length p) (p +:+ t) = t.
Proof. induction p as [|c p IH]; [done|]. by rewrite append_cons. Qed.

Lemma prefix_split p h :
  String.prefix p h = true → h = p +:+ slice (String.length p) h.
Proof.
  revert h. induction p as [|c p IH]; intros h; [done|].
  destruct h as [|c' h]; simpl; [done|].
  destruct (Ascii.ascii_dec c c') as [->|]; [|done].
  intros Hp. rewrite append_cons. f_equal. by apply IH.
Qed.

Lemma nonEmpty_spec s : nonEmpty s = true ↔ s ≠ EmptyString.
Proof. by destruct s. Qed.

Lemma auth_bearer jwtVerify t :
  auth jwtVerify (Some ("Bearer " +:+ t))
  = if decide (t = EmptyString) then Refused 401 "Unauthorized"
    else match jwtVerify t with
         | Some payload => Answer payload
         | None => Refused 401 "Invalid token"
         end.
Proof.
  unfold auth. rewrite (prefix_append "Bearer " t).
  change 7%nat with (String.length "Bearer "). rewrite slice_append.
  destruct t; [done|]. by rewrite decide_False.
Qed.

Lemma auth_answer jwtVerify authorization payload :
  auth jwtVerify authorization = Answer payload →
  ∃ t, authorization = Some ("Bearer " +:+ t) ∧ t ≠ EmptyString ∧
       jwtVerify t = Some payload.
Proof.
  intros Hauth. destruct authorization as [h|]; [|done].
  destruct (String.prefix "Bearer " h) eqn:Hp.
  2:{ unfold auth in Hauth. by rewrite Hp in Hauth. }
  apply (prefix_split "Bearer " h) in Hp. simpl String.length in Hp.
  rewrite Hp, auth_bearer in Hauth.
  exists (slice 7 h). split; [by rewrite <- Hp|].
  destruct (decide (slice 7 h = EmptyString)); [done|]. split; [done|].
  by destruct (jwtVerify (slice 7 h)); simplify_eq.
Qed.

(** X14. [auth] lets a request through only when the header is
    ["Bearer "] followed by a non-empty token that [jwt.verify] accepts,
    and the user of the request is then the verified payload.  Without a
    header, with another prefix or with an empty token the answer is 401
    "Unauthorized"; with a non-empty token that [jwt.verify] rejects it is
    401 "Invalid token". *)
Theorem auth_outcome jwtVerify authorization :
  (∀ payload, auth jwtVerify authorization = Answer payload →
     ∃ t, authorization = Some ("Bearer " +:+ t) ∧ t ≠ EmptyString ∧
          jwtVerify t = Some payload) ∧
  (∀ t, authorization = Some ("Bearer " +:+ t) →
     auth jwtVerify authorization
     = if decide (t = EmptyString) then Refused 401 "Unauthorized"
       else match jwtVerify t with
            | Some payload => Answer payload
            | None => Refused 401 "Invalid token"
            end) ∧
  ((∀ t, authorization ≠ Some ("Bearer " +:+ t)) →
   auth jwtVerify authorization = Refused 401 "Unauthorized").
Proof.
  split; [|split].
  - intros payload. apply auth_answer.
  - intros t ->. apply auth_bearer.
  - intros Hnot. destruct authorization as [h|]; [|done].
    destruct (String.prefix "Bearer " h) eqn:Hp.
    + apply (prefix_split "Bearer " h) in Hp. by destruct (Hnot (slice 7 h)); f_equal.
    + unfold auth. by rewrite Hp.
Qed.

(** A request either is stopped by a middleware, and then the handler has
    not run, or carries a verified token with an accepted role, and then
    the answer and the store are those of the handler for the user of the
    token. *)
Lemma guarded_cases {A : Type} jwtVerify roles authorization
    (handler : Z → M A) d :
  (∃ status error,
     guarded jwtVerify roles authorization handler d = (Refused status error, d))
  ∨ ∃ t payload,
      authorization = Some ("Bearer " +:+ t) ∧ t ≠ EmptyString ∧
      jwtVerify t = Some payload ∧
      (∀ rs, roles = Some rs → jwt_role payload ∈ rs) ∧
      guarded jwtVerify roles authorization handler d
      = answered (handler (jwt_sub payload) d).
Proof.
  unfold guarded.
  destruct (auth jwtVerify authorization) as [payload|status error|e] eqn:Hauth.
  - apply auth_answer in Hauth as (t & -> & Ht & Hverify).
    destruct roles as [rs|].
    + unfold requireRole.
      destruct (nonEmpty (jwt_role payload)); cbn [negb]; [|left; by eexists _, _].
      destruct (bool_decide (jwt_role payload ∈ rs)) eqn:Hin; cbn [negb];
        [|left; by eexists _, _].
      apply bool_decide_eq_true in Hin.
      right. exists t, payload. do 3 (split; [done|]).
      split; [by intros ? [= <-]|done].
    + right. exists t, payload. do 3 (split; [done|]). by split.
  - left. by eexists _, _.
  - exfalso. unfold auth in Hauth. repeat case_match; done.
Qed.

Lemma guarded_reached {A : Type} jwtVerify rs authorization (handler : Z → M A) d :
  (guarded jwtVerify (Some rs) authorization handler d).2 ≠ d
  ∨ (∃ a, (guarded jwtVerify (Some rs) authorization handler d).1 = Answer a) →
  ∃ t payload,
    authorization = Some ("Bearer " +:+ t) ∧ jwtVerify t = Some payload ∧
    jwt_role payload ∈ rs ∧
    guarded jwtVerify (Some rs) authorization handler d
    = answered (handler (jwt_sub payload) d).
Proof.
  intros Hreached.
  destruct (guarded_cases jwtVerify (Some rs) authorization handler d)
    as [(status & error & Hrun)|(t & payload & -> & _ & Hverify & Hrole & Hrun)].
  - rewrite Hrun in Hreached. by destruct Hreached as [?|[? ?]].
  - exists t, payload. by repeat split; [..|apply Hrole|].
Qed.

(** X15. Stock is written only for the roles of the route.  When
    [POST /production] changes the store or answers with a success, the
    request carried a token that [jwt.verify] accepts with the role
    warehouse or admin; for [POST /purchases] the role is supply or admin,
    for [POST /sales] it is sales or admin; and the handler has run for
    the [sub] of that token. *)
Theorem writes_need_role jwtVerify authorization d :
  (∀ body,
     (postProduction jwtVerify authorization body d).2 ≠ d
     ∨ (∃ a, (postProduction jwtVerify authorization body d).1 = Answer a) →
     ∃ t payload,
       authorization = Some ("Bearer " +:+ t) ∧ jwtVerify t = Some payload ∧
       (jwt_role payload = "warehouse" ∨ jwt_role payload = "admin") ∧
       postProduction jwtVerify authorization body d
       = answered (production (jwt_sub payload) body d)) ∧
  (∀ items,
     (postPurchases jwtVerify authorization items d).2 ≠ d
     ∨ (∃ a, (postPurchases jwtVerify authorization items d).1 = Answer a) →
     ∃ t payload,
       authorization = Some ("Bearer " +:+ t) ∧ jwtVerify t = Some payload ∧
       (jwt_role payload = "supply" ∨ jwt_role payload = "admin") ∧
       postPurchases jwtVerify authorization items d
       = answered (purchases (jwt_sub payload) items d)) ∧
  (∀ body,
     (postSales jwtVerify authorization body d).2 ≠ d
     ∨ (∃ a, (postSales jwtVerify authorization body d).1 = Answer a) →
     ∃ t payload,
       authorization = Some ("Bearer " +:+ t) ∧ jwtVerify t = Some payload ∧
       (jwt_role payload = "sales" ∨ jwt_role payload = "admin") ∧
       postSales jwtVerify authorization body d
       = answered (sales (jwt_sub payload) body d)).
Proof.
  split; [|split]; intros body Hreached;
    apply guarded_reached in Hreached as (t & payload & -> & Hverify & Hrole & Hrun);
    exists t, payload; (do 2 (split; [done|]));
    (split; [rewrite !elem_of_cons, elem_of_nil in Hrole; tauto|]).
  - exact Hrun.
  - exact Hrun.
  - exact Hrun.
Qed.

(** A token of a sales user sells and does not produce. *)
Lemma writes_need_role_witness :
  (postSales (toyVerify "sales") (Some "Bearer t0k3n") (mkSaleBody "TP" 5 4)
     packedStore).2 ≠ packedStore
  ∧ postProduction (toyVerify "sales") (Some "Bearer t0k3n") tp10x20 stockedStore
    = (Refused 403 "Forbidden", stockedStore)
  ∧ ∃ t payload,
      Some "Bearer t0k3n" = Some ("Bearer " +:+ t) ∧
      toyVerify "sales" t = Some payload ∧
      (jwt_role payload = "sales" ∨ jwt_role payload = "admin").
Proof.
  assert ((postSales (toyVerify "sales") (Some "Bearer t0k3n") (mkSaleBody "TP" 5 4)
             packedStore).2 ≠ packedStore) as Hchanged.
  { intros Heq. apply (f_equal inventoryTx_tbl) in Heq.
    apply (f_equal length) in Heq. vm_compute in Heq. discriminate Heq. }
  split; [exact Hchanged|]. split; [vm_compute; reflexivity|].
  destruct (proj2 (proj2 (writes_need_role (toyVerify "sales")
                            (Some "Bearer t0k3n") packedStore))
              (mkSaleBody "TP" 5 4) (or_introl Hchanged))
    as (t & payload & Ht & Hverify & Hrole & _).
  by exists t, payload.
Defined.

(** ** Login *)

(** X16. A login is answered with a success exactly when the body has a
    non-empty username and password, the username is in the [user] table
    and [bcrypt.compare] accepts the password for the stored hash; the
    success carries the token signed for the id, the role and the username
    of the user, with the role, the username and the name.  With a valid
    body every other case has one and the same answer, 401 "Invalid
    credentials", whether the username is unknown or the password wrong. *)
Theorem login_outcome bcryptCompare jwtSign users body :
  (∀ resp, login bcryptCompare jwtSign users body = Answer resp ↔
     lb_username body ≠ EmptyString ∧ lb_password body ≠ EmptyString ∧
     ∃ u, users !! lb_username body = Some u ∧
          bcryptCompare (lb_password body) (u_passwordHash u) = true ∧
          resp = mkLoginResponse
                   (jwtSign (mkPayload (u_id u) (u_role u) (lb_username body)))
                   (u_role u) (lb_username body) (u_name u)) ∧
  (lb_username body ≠ EmptyString → lb_password body ≠ EmptyString →
   (∀ resp, login bcryptCompare jwtSign users body ≠ Answer resp) →
   login bcryptCompare jwtSign users body = Refused 401 "Invalid credentials").
Proof.
  unfold login, signToken.
  destruct (nonEmpty (lb_username body)) eqn:Hu;
    [apply nonEmpty_spec in Hu|destruct (lb_username body); [|done]].
  2:{ simpl. split; [|done]. intros resp. split; [done|]. by intros (? & _). }
  destruct (nonEmpty (lb_password body)) eqn:Hp;
    [apply nonEmpty_spec in Hp|destruct (lb_password body); [|done]].
  2:{ simpl. split; [|done]. intros resp. split; [done|]. by intros (_ & ? & _). }
  cbn [andb negb].
  destruct (users !! lb_username body) as [u|].
  2:{ split; [|done]. intros resp. split; [done|]. by intros (_ & _ & ? & ? & _). }
  destruct (bcryptCompare (lb_password body) (u_passwordHash u)) eqn:Hc; cbn [negb].
  - split.
    + intros resp. split.
      * intros [= <-]. do 2 (split; [done|]). by exists u.
      * intros (_ & _ & u' & [= <-] & _ & ->). done.
    + intros _ _ Hnot. by destruct (Hnot _ eq_refl).
  - split; [|done]. intros resp. split; [done|].
    intros (_ & _ & u' & [= <-] & Hc' & _). congruence.
Qed.

(** X17. A token handed out by the login opens the routes of the role of
    the user: when [jwt.verify] gives back the payload that was signed
    and the token is not empty, a request with the header ["Bearer "]
    followed by the token runs the production handler for a warehouse or
    admin user, the purchase handler for a supply or admin user and the
    sale handler for a sales or admin user, each time with the id of the
    user, so that the entries written carry that id. *)
Theorem login_token_opens_routes bcryptCompare jwtSign jwtVerify users body resp u :
  login bcryptCompare jwtSign users body = Answer resp →
  users !! lb_username body = Some u →
  jwtVerify (lr_accessToken resp)
  = Some (mkPayload (u_id u) (u_role u) (lb_username body)) →
  lr_accessToken resp ≠ EmptyString →
  let header := Some ("Bearer " +:+ lr_accessToken resp) in
  ((u_role u = "warehouse" ∨ u_role u = "admin") →
   ∀ b d, postProduction jwtVerify header b d = answered (production (u_id u) b d)) ∧
  ((u_role u = "supply" ∨ u_role u = "admin") →
   ∀ items d, postPurchases jwtVerify header items d
              = answered (purchases (u_id u) items d)) ∧
  ((u_role u = "sales" ∨ u_role u = "admin") →
   ∀ b d, postSales jwtVerify header b d = answered (sales (u_id u) b d)).
Proof.
  intros _ _ Hverify Htoken header.
  assert (auth jwtVerify header
          = Answer (mkPayload (u_id u) (u_role u) (lb_username body))) as Hauth.
  { unfold header. rewrite auth_bearer, decide_False by done. by rewrite Hverify. }
  assert (∀ {A} rs (handler : Z → M A) d,
            u_role u ∈ rs → u_role u ≠ EmptyString →
            guarded jwtVerify (Some rs) header handler d
            = answered (handler (u_id u) d)) as Hopen.
  { intros A rs handler d Hin Hne. unfold guarded, requireRole.
    rewrite Hauth. simpl. apply nonEmpty_spec in Hne. rewrite Hne.
    by rewrite bool_decide_eq_true_2 by done. }
  split; [|split]; intros Hrole; intros;
    apply Hopen; destruct Hrole as [->| ->];
    first [done | rewrite !elem_of_cons; tauto].
Qed.

Lemma login_token_opens_routes_witness :
  postSales (toyVerify "sales") (Some "Bearer t0k3n") (mkSaleBody "TP" 5 4)
    packedStore
  = answered (sales 3 (mkSaleBody "TP" 5 4) packedStore).
Proof.
  assert (login String.eqb (λ _, "t0k3n")
            {["someone" := mkUser 3 "Some One" "sales" "secret"]}
            (mkLoginBody "someone" "secret")
          = Answer (mkLoginResponse "t0k3n" "sales" "someone" "Some One")) as Hlogin
    by (vm_compute; reflexivity).
  refine (proj2 (proj2 (login_token_opens_routes String.eqb (λ _, "t0k3n")
            (toyVerify "sales") _ _ _ (mkUser 3 "Some One" "sales" "secret")
            Hlogin _ _ _)) (or_introl eq_refl) (mkSaleBody "TP" 5 4) packedStore);
    [vm_compute; reflexivity|reflexivity|discriminate].
Defined.

(** * Properties of the inventory summary *)

(** ** The pattern of the product codes *)

Lemma append_not_shorter x t : x ≠ EmptyString → x +:+ t ≠ t.
Proof.
  intros Hx Heq. apply (f_equal String.length) in Heq.
  rewrite length_append in Heq. destruct x; [done|]. simpl in Heq. lia.
Qed.

Lemma stripSuffix_unfold t s :
  stripSuffix t s
  = if String.eqb s t then Some EmptyString else
    match s with
    | EmptyString => None
    | String c rest => String c <$> stripSuffix t rest
    end.
Proof. by destruct s. Qed.

Lemma endsWith_unfold t s :
  endsWith t s
  = String.eqb s t ||
    match s with
    | EmptyString => false
    | String _ rest => endsWith t rest
    end.
Proof. by destruct s. Qed.

Lemma stripSuffix_spec t s x : stripSuffix t s = Some x ↔ s = x +:+ t.
Proof.
  split.
  - revert x. induction s as [|c s IH]; intros x; rewrite stripSuffix_unfold.
    + destruct (String.eqb "" t) eqn:Heq; [|done].
      apply String.eqb_eq in Heq. by intros [= <-].
    + destruct (String.eqb (String c s) t) eqn:Heq.
      * apply String.eqb_eq in Heq. by intros [= <-].
      * destruct (stripSuffix t s) as [x'|]; [|done].
        intros [= <-]. rewrite append_cons. f_equal. by apply IH.
  - intros ->. induction x as [|c x IH]; rewrite stripSuffix_unfold.
    + by rewrite append_nil_l, String.eqb_refl.
    + destruct (String.eqb (String c x +:+ t) t) eqn:Heq.
      * apply String.eqb_eq in Heq. by apply append_not_shorter in Heq.
      * rewrite append_cons. by rewrite IH.
Qed.

Lemma endsWith_spec t s : endsWith t s = true ↔ ∃ x, s = x +:+ t.
Proof.
  split.
  - induction s as [|c s IH]; rewrite endsWith_unfold.
    + rewrite orb_false_r. intros Heq. apply String.eqb_eq in Heq.
      exists EmptyString. by rewrite append_nil_l.
    + intros [Heq|Hrest]%orb_true_iff.
      * apply String.eqb_eq in Heq. exists EmptyString. by rewrite append_nil_l.
      * destruct (IH Hrest) as [x ->]. exists (String c x). by rewrite append_cons.
  - intros [x ->]. induction x as [|c x IH]; rewrite endsWith_unfold.
    + by rewrite append_nil_l, String.eqb_refl.
    + rewrite append_cons, IH. apply orb_true_r.
Qed.

Lemma familyBefore_spec t code F :
  familyBefore t code = Some F ↔ code = F +:+ t ∧ validFamily F.
Proof.
  unfold familyBefore, validFamily. split.
  - destruct (stripSuffix t code) as [x|] eqn:Hx; [|done].
    apply stripSuffix_spec in Hx.
    destruct (nonEmpty x && allFamilyChars x) eqn:Hvalid; [|done].
    intros [= <-]. apply andb_true_iff in Hvalid as [Hne ?].
    by apply nonEmpty_spec in Hne.
  - intros (-> & Hne & Hchars).
    rewrite (proj2 (stripSuffix_spec t _ F) eq_refl).
    apply nonEmpty_spec in Hne. by rewrite Hne, Hchars.
Qed.

Lemma familyBefore_other t t' code F :
  code = F +:+ t → t ≠ t' →
  t ∈ ["_PACK_5"; "_PACK_10"; "_PACK_20"; "_LITERS"] →
  t' ∈ ["_PACK_5"; "_PACK_10"; "_PACK_20"; "_LITERS"] →
  familyBefore t' code = None.
Proof.
  intros -> Hne Ht Ht'.
  destruct (familyBefore t' (F +:+ t)) as [F'|] eqn:HF'; [|done]. exfalso.
  apply familyBefore_spec in HF' as [Heq _].
  rewrite !elem_of_cons, elem_of_nil in Ht, Ht'.
  destruct Ht as [->|[->|[->|[->|[]]]]]; destruct Ht' as [->|[->|[->|[->|[]]]]];
    try done; code_clash Heq.
Qed.

Lemma familyCodes_spec F code :
  code ∈ familyCodes F ↔
  ∃ t, t ∈ ["_PACK_5"; "_PACK_10"; "_PACK_20"; "_LITERS"] ∧ code = F +:+ t.
Proof.
  unfold familyCodes, litersCode, packCode.
  change (pretty 5) with "5". change (pretty 10) with "10".
  change (pretty 20) with "20".
  rewrite !elem_of_cons, elem_of_nil. split.
  - intros [->|[->|[->|[->|[]]]]]; eexists; (split; [|reflexivity]);
      rewrite !elem_of_cons; tauto.
  - intros (t & Ht & ->). rewrite !elem_of_cons, elem_of_nil in Ht.
    destruct Ht as [->|[->|[->|[->|[]]]]]; tauto.
Qed.

Lemma matchFamily_Some code F :
  matchFamily code = Some F → validFamily F ∧ code ∈ familyCodes F.
Proof.
  rewrite familyCodes_spec. unfold matchFamily. intros Hm.
  assert (∃ t, t ∈ ["_PACK_5"; "_PACK_10"; "_PACK_20"; "_LITERS"] ∧
               familyBefore t code = Some F) as (t & Ht & HF).
  { destruct (familyBefore "_PACK_5" code) eqn:H5;
      [exists "_PACK_5"; split; [rewrite !elem_of_cons; tauto|congruence]|].
    destruct (familyBefore "_PACK_10" code) eqn:H10;
      [exists "_PACK_10"; split; [rewrite !elem_of_cons; tauto|congruence]|].
    destruct (familyBefore "_PACK_20" code) eqn:H20;
      [exists "_PACK_20"; split; [rewrite !elem_of_cons; tauto|congruence]|].
    exists "_LITERS". split; [rewrite !elem_of_cons; tauto|congruence]. }
  apply familyBefore_spec in HF as [-> Hvalid]. split; [done|]. by exists t.
Qed.

Lemma matchFamily_family code F :
  validFamily F → code ∈ familyCodes F → matchFamily code = Some F.
Proof.
  rewrite familyCodes_spec. intros Hvalid (t & Ht & ->).
  assert (familyBefore t (F +:+ t) = Some F) as Hhit
    by (by apply familyBefore_spec).
  assert (∀ t', t' ≠ t →
            t' ∈ ["_PACK_5"; "_PACK_10"; "_PACK_20"; "_LITERS"] →
            familyBefore t' (F +:+ t) = None) as Hmiss.
  { intros t' Hne Ht'. by apply (familyBefore_other t t' _ F). }
  unfold matchFamily. rewrite !elem_of_cons, elem_of_nil in Ht.
  destruct Ht as [->|[->|[->|[->|[]]]]].
  + by rewrite Hhit.
  + rewrite (Hmiss "_PACK_5") by (done || rewrite !elem_of_cons; tauto).
    by rewrite Hhit.
  + rewrite (Hmiss "_PACK_5"), (Hmiss "_PACK_10")
      by (done || rewrite !elem_of_cons; tauto).
    by rewrite Hhit.
  + rewrite (Hmiss "_PACK_5"), (Hmiss "_PACK_10"), (Hmiss "_PACK_20")
      by (done || rewrite !elem_of_cons; tauto).
    by rewrite Hhit.
Qed.

(** X18. The pattern of the summary recognises exactly the product codes
    of a family whose code is a non-empty word of capital letters and
    digits, and gives the family back: [matchFamily code = Some F] holds
    exactly when [F] is such a word and [code] is [F_LITERS], [F_PACK_5],
    [F_PACK_10] or [F_PACK_20]. *)
Theorem matchFamily_spec code F :
  matchFamily code = Some F ↔ validFamily F ∧ code ∈ familyCodes F.
Proof.
  split; [apply matchFamily_Some|].
  intros [Hvalid Hcode]. by apply matchFamily_family.
Qed.

(** ** The rows of the inventory with their warehouse and product *)

Lemma head_filter_elem {A : Type} (P : A → Prop) `{∀ x, Decision (P x)}
    (l : list A) x :
  head (filter P l) = Some x → x ∈ l ∧ P x.
Proof.
  intros Hhead. apply head_Some_elem_of in Hhead.
  by apply list_elem_of_filter in Hhead as [? ?].
Qed.

Lemma head_filter_is_Some {A : Type} (P : A → Prop) `{∀ x, Decision (P x)}
    (l : list A) x :
  x ∈ l → P x → is_Some (head (filter P l)).
Proof.
  intros Hin HP.
  assert (x ∈ filter P l) as Hx by (by apply list_elem_of_filter).
  destruct (filter P l); [by apply elem_of_nil in Hx|by eexists].
Qed.

Lemma warehouseById_Some d id c wh :
  warehouseById d id = Some (c, wh) →
  warehouse_tbl d !! c = Some wh ∧ wh_id wh = id.
Proof.
  intros [Hin Hid]%head_filter_elem. by apply elem_of_map_to_list in Hin.
Qed.

Lemma productById_Some d id c p :
  productById d id = Some (c, p) →
  product_tbl d !! c = Some p ∧ p_id p = id.
Proof.
  intros [Hin Hid]%head_filter_elem. by apply elem_of_map_to_list in Hin.
Qed.

Lemma warehouseById_lookup d c wh :
  wellFormed d → warehouse_tbl d !! c = Some wh →
  warehouseById d (wh_id wh) = Some (c, wh).
Proof.
  intros (Hw & _) Hwh.
  destruct (head_filter_is_Some (λ cw : string * warehouse, wh_id cw.2 = wh_id wh)
              (map_to_list (warehouse_tbl d)) (c, wh)) as [[c' wh'] Hhead];
    [by apply elem_of_map_to_list|done|].
  unfold warehouseById. rewrite Hhead.
  apply warehouseById_Some in Hhead as [Hwh' Hid].
  assert (c' = c) as -> by (by apply (uniqueIds_inj wh_id (warehouse_tbl d) _ _ wh' wh)).
  congruence.
Qed.

Lemma productById_lookup d c p :
  wellFormed d → product_tbl d !! c = Some p →
  productById d (p_id p) = Some (c, p).
Proof.
  intros (_ & Hp & _) Hpr.
  destruct (head_filter_is_Some (λ cp : string * product, p_id cp.2 = p_id p)
              (map_to_list (product_tbl d)) (c, p)) as [[c' p'] Hhead];
    [by apply elem_of_map_to_list|done|].
  unfold productById. rewrite Hhead.
  apply productById_Some in Hhead as [Hpr' Hid].
  assert (c' = c) as -> by (by apply (uniqueIds_inj p_id (product_tbl d) _ _ p' p)).
  congruence.
Qed.

(** A row of the join is an inventory row of a warehouse and a product of
    the catalog. *)
Lemma inventoryFindMany_elem d row :
  row ∈ inventoryFindMany d →
  ∃ wh p, warehouse_tbl d !! row_warehouse row = Some wh ∧
          product_tbl d !! row_code row = Some p ∧
          row_type row = p_type p ∧
          inventory_tbl d !! (wh_id wh, p_id p) = Some (row_qty row).
Proof.
  unfold inventoryFindMany. intros Hin.
  apply list_elem_of_omap in Hin as ([[wid pid] q] & Hin & Hjoin). simpl in Hjoin.
  destruct (warehouseById d wid) as [[c wh]|] eqn:Hwh; [|done].
  destruct (productById d pid) as [[c' p]|] eqn:Hpr; [|done].
  injection Hjoin as <-. simpl.
  apply warehouseById_Some in Hwh as [Hwh <-].
  apply productById_Some in Hpr as [Hpr <-].
  apply elem_of_map_to_list in Hin. by exists wh, p.
Qed.

Lemma inventoryFindMany_row d c wh c' p q :
  wellFormed d →
  warehouse_tbl d !! c = Some wh → product_tbl d !! c' = Some p →
  inventory_tbl d !! (wh_id wh, p_id p) = Some q →
  mkInventoryRow c c' (p_type p) q ∈ inventoryFindMany d.
Proof.
  intros Hwf Hwh Hpr Hinv. unfold inventoryFindMany.
  apply list_elem_of_omap. exists ((wh_id wh, p_id p), q).
  split; [by apply elem_of_map_to_list|]. simpl.
  by rewrite (warehouseById_lookup d c wh), (productById_lookup d c' p).
Qed.

Lemma NoDup_omap_inj {A B C : Type} (f : A → option B) (g : B → C) (l : list A) :
  NoDup l →
  (∀ x1 x2 y1 y2, x1 ∈ l → x2 ∈ l → f x1 = Some y1 → f x2 = Some y2 →
                  g y1 = g y2 → x1 = x2) →
  NoDup (g <$> omap f l).
Proof.
  induction 1 as [|x l Hnotin Hnd IH]; intros Hinj; simpl; [constructor|].
  assert (NoDup (g <$> omap f l)) as Hrest.
  { apply IH. intros x1 x2 y1 y2 H1 H2. apply Hinj; by apply list_elem_of_further. }
  destruct (f x) as [y|] eqn:Hy; [|done].
  rewrite fmap_cons. apply NoDup_cons. split; [|done].
  intros Hin. apply list_elem_of_fmap in Hin as (y' & Heq & Hin).
  apply list_elem_of_omap in Hin as (x' & Hx' & Hy').
  assert (x = x') as <-; [|done].
  apply (Hinj x x' y y'); [apply list_elem_of_here|by apply list_elem_of_further|done..].
Qed.

(** No two rows of the join have the same warehouse code and product
    code. *)
Lemma inventoryFindMany_NoDup d : NoDup (rowKey <$> inventoryFindMany d).
Proof.
  unfold inventoryFindMany. apply NoDup_omap_inj; [apply NoDup_map_to_list|].
  intros [[wid1 pid1] q1] [[wid2 pid2] q2] row1 row2 H1 H2 Hj1 Hj2 Hkey.
  simpl in Hj1, Hj2.
  destruct (warehouseById d wid1) as [[c1 wh1]|] eqn:Hwh1; [|done].
  destruct (productById d pid1) as [[c1' p1]|] eqn:Hpr1; [|done].
  destruct (warehouseById d wid2) as [[c2 wh2]|] eqn:Hwh2; [|done].
  destruct (productById d pid2) as [[c2' p2]|] eqn:Hpr2; [|done].
  injection Hj1 as <-. injection Hj2 as <-.
  unfold rowKey in Hkey. simpl in Hkey. injection Hkey as -> ->.
  apply warehouseById_Some in Hwh1 as [Hwh1 <-], Hwh2 as [Hwh2 <-].
  apply productById_Some in Hpr1 as [Hpr1 <-], Hpr2 as [Hpr2 <-].
  assert (wh1 = wh2) as -> by congruence.
  assert (p1 = p2) as -> by congruence.
  apply elem_of_map_to_list in H1, H2. simpl in H1, H2.
  assert (q1 = q2) as -> by congruence. done.
Qed.

Lemma rowOf_elem rows row :
  NoDup (rowKey <$> rows) → row ∈ rows →
  rowOf rows (row_warehouse row) (row_code row) = Some row.
Proof.
  intros Hnd Hin. unfold rowOf.
  destruct (head_filter_is_Some (λ r, rowKey r = (row_warehouse row, row_code row))
              rows row Hin eq_refl) as [row' Hhead].
  rewrite Hhead. apply head_filter_elem in Hhead as [Hin' Hkey].
  f_equal. apply list_elem_of_lookup in Hin as [i Hi], Hin' as [j Hj].
  assert (i = j) as ->; [|congruence].
  apply (NoDup_lookup _ i j (rowKey row) Hnd).
  - by rewrite list_lookup_fmap, Hi.
  - rewrite list_lookup_fmap, Hj. simpl. f_equal. exact Hkey.
Qed.

Lemma rowOf_Some rows wh code row :
  rowOf rows wh code = Some row → row ∈ rows ∧ rowKey row = (wh, code).
Proof. intros Hrow. by apply head_filter_elem in Hrow. Qed.

(** The row of a warehouse and a product of the catalog is their inventory
    row. *)
Lemma rowOf_inventory d c wh c' p :
  wellFormed d →
  warehouse_tbl d !! c = Some wh → product_tbl d !! c' = Some p →
  rowOf (inventoryFindMany d) c c'
  = mkInventoryRow c c' (p_type p) <$> inventory_tbl d !! (wh_id wh, p_id p).
Proof.
  intros Hwf Hwh Hpr.
  destruct (inventory_tbl d !! (wh_id wh, p_id p)) as [q|] eqn:Hinv; simpl.
  - apply (rowOf_elem _ (mkInventoryRow c c' (p_type p) q));
      [apply inventoryFindMany_NoDup|by apply (inventoryFindMany_row d c wh c' p q)].
  - destruct (rowOf (inventoryFindMany d) c c') as [row|] eqn:Hrow; [|done].
    apply rowOf_Some in Hrow as [Hin [= <- <-]].
    apply inventoryFindMany_elem in Hin as (wh' & p' & ? & ? & _ & ?).
    congruence.
Qed.

Lemma rowOf_unknown d c c' :
  warehouse_tbl d !! c = None ∨ product_tbl d !! c' = None →
  rowOf (inventoryFindMany d) c c' = None.
Proof.
  intros Hnone.
  destruct (rowOf (inventoryFindMany d) c c') as [row|] eqn:Hrow; [|done].
  apply rowOf_Some in Hrow as [Hin [= <- <-]].
  apply inventoryFindMany_elem in Hin as (wh' & p' & ? & ? & _).
  destruct Hnone; congruence.
Qed.

(** ** The loop over the rows *)

Lemma rowOf_snoc l r wh code :
  NoDup (rowKey <$> (l ++ [r])) →
  rowOf (l ++ [r]) wh code
  = if decide (rowKey r = (wh, code)) then Some r else rowOf l wh code.
Proof.
  intros Hnd. unfold rowOf. rewrite filter_app, head_app.
  rewrite fmap_app in Hnd. apply NoDup_app in Hnd as (_ & Hfresh & _).
  destruct (decide (rowKey r = (wh, code))) as [Hkey|Hkey].
  - rewrite (list.filter_singleton_True _ r []) by done.
    destruct (head (filter (λ row, rowKey row = (wh, code)) l)) as [r'|] eqn:Hhead;
      [|done].
    apply head_filter_elem in Hhead as [Hin Hkey'].
    exfalso. apply (Hfresh (wh, code)).
    + apply list_elem_of_fmap. by exists r'.
    + rewrite <- Hkey. apply list_elem_of_here.
  - rewrite (list.filter_singleton_False _ r []) by done.
    by destruct (head (filter (λ row, rowKey row = (wh, code)) l)).
Qed.

(** A place of the summary that only the row of one warehouse code and
    product code can write holds, after the loop, what that row wrote. *)
Lemma foldl_slot {A : Type} (get : summary → A) (hit : inventoryRow → bool)
    (val : inventoryRow → A) wh code :
  (∀ acc r, get (summaryRow acc r) = if hit r then val r else get acc) →
  (∀ r, hit r = true → rowKey r = (wh, code)) →
  ∀ rows acc, NoDup (rowKey <$> rows) →
  get (foldl summaryRow acc rows)
  = match rowOf rows wh code with
    | Some r => if hit r then val r else get acc
    | None => get acc
    end.
Proof.
  intros Hstep Hkey rows acc. induction rows as [|r l IH] using rev_ind; intros Hnd.
  - done.
  - rewrite foldl_app. cbn [foldl]. rewrite Hstep, rowOf_snoc by done.
    assert (NoDup (rowKey <$> l)) as Hl.
    { rewrite fmap_app in Hnd. by apply NoDup_app in Hnd as (? & _). }
    destruct (hit r) eqn:Hhit.
    + rewrite decide_True by by apply Hkey. by rewrite Hhit.
    + rewrite IH by done.
      destruct (decide (rowKey r = (wh, code))) as [Hr|Hr]; [|done].
      rewrite Hhit.
      destruct (rowOf l wh code) as [r'|] eqn:Hrow; [|done].
      apply rowOf_Some in Hrow as [Hin Hkey'].
      rewrite fmap_app in Hnd. apply NoDup_app in Hnd as (_ & Hfresh & _).
      exfalso. apply (Hfresh (wh, code)).
      * apply list_elem_of_fmap. by exists r'.
      * rewrite <- Hr. apply list_elem_of_here.
Qed.





Lemma products_summaryRow acc r :
  products (summaryRow acc r)
  = if String.eqb (row_warehouse r) "FG_WH" then
      match matchFamily (row_code r) with
      | None => products acc
      | Some F =>
          (λ o, if String.eqb (ps_code o) F
                then setFields (row_code r) (row_qty r) o else o)
          <$> (if mapHas F (products acc) then products acc
               else products acc ++ [mkProductSummary F 0 0 0 0])
      end
    else products acc.
Proof.
  unfold summaryRow.
  destruct (String.eqb (row_warehouse r) "RAW_WH" && String.eqb (row_type r) "RAW"),
    (String.eqb (row_warehouse r) "GAL_WH" && String.eqb (row_type r) "GALLON"),
    (String.eqb (row_warehouse r) "FG_WH"), (matchFamily (row_code r)); reflexivity.
Qed.





Lemma inventorySummary_Ok cmp d :
  hasWarehouse d "RAW_WH" → hasWarehouse d "GAL_WH" → hasWarehouse d "FG_WH" →
  inventorySummary cmp d
  = (let acc := foldl summaryRow emptySummary (inventoryFindMany d) in
     Ok (mkSummary (rawKg acc) (gallonsEmpty5 acc) (gallonsEmpty10 acc)
           (gallonsEmpty20 acc) (sortByCode cmp (products acc))), d).
Proof.
  intros [w1 H1] [w2 H2] [w3 H3]. unfold inventorySummary.
  rewrite (bind_Ok _ _ d _ d (getWarehouseId_some _ _ _ H1)).
  rewrite (bind_Ok _ _ d _ d (getWarehouseId_some _ _ _ H2)).
  rewrite (bind_Ok _ _ d _ d (getWarehouseId_some _ _ _ H3)).
  reflexivity.
Qed.

Lemma inventorySummary_cases cmp d r d' :
  inventorySummary cmp d = (r, d') →
  d' = d ∧
  match r with
  | Ok s => hasWarehouse d "RAW_WH" ∧ hasWarehouse d "GAL_WH" ∧ hasWarehouse d "FG_WH"
  | Err e =>
      ∃ c, e = UnknownWarehouse c ∧ warehouse_tbl d !! c = None ∧
           ((c = "RAW_WH") ∨
            (c = "GAL_WH" ∧ hasWarehouse d "RAW_WH") ∨
            (c = "FG_WH" ∧ hasWarehouse d "RAW_WH" ∧ hasWarehouse d "GAL_WH"))
  end.
Proof.
  unfold inventorySummary.
  destruct (warehouse_tbl d !! "RAW_WH") as [w1|] eqn:H1.
  2:{ rewrite (bind_Err _ _ d _ d (getWarehouseId_none _ _ H1)).
      intros [= <- <-]. split; [done|]. exists "RAW_WH". auto. }
  rewrite (bind_Ok _ _ d _ d (getWarehouseId_some _ _ _ H1)).
  destruct (warehouse_tbl d !! "GAL_WH") as [w2|] eqn:H2.
  2:{ rewrite (bind_Err _ _ d _ d (getWarehouseId_none _ _ H2)).
      intros [= <- <-]. split; [done|]. exists "GAL_WH".
      split; [done|]. split; [done|]. right. left. split; [done|by exists w1]. }
  rewrite (bind_Ok _ _ d _ d (getWarehouseId_some _ _ _ H2)).
  destruct (warehouse_tbl d !! "FG_WH") as [w3|] eqn:H3.
  2:{ rewrite (bind_Err _ _ d _ d (getWarehouseId_none _ _ H3)).
      intros [= <- <-]. split; [done|]. exists "FG_WH".
      split; [done|]. split; [done|]. right. right.
      split; [done|]. split; [by exists w1|by exists w2]. }
  rewrite (bind_Ok _ _ d _ d (getWarehouseId_some _ _ _ H3)).
  intros [= <- <-]. split; [done|].
  split; [by exists w1|]. split; [by exists w2|by exists w3].
Qed.

(** X19. [GET /inventory/summary] never writes.  It answers with a summary
    exactly when the three warehouses RAW_WH, GAL_WH and FG_WH all exist,
    although it uses none of their ids; otherwise it fails on the first of
    them, in this order, that is missing. *)
Theorem summary_outcome cmp d :
  (inventorySummary cmp d).2 = d ∧
  ((∃ s, (inventorySummary cmp d).1 = Ok s) ↔
   hasWarehouse d "RAW_WH" ∧ hasWarehouse d "GAL_WH" ∧ hasWarehouse d "FG_WH") ∧
  (∀ e, (inventorySummary cmp d).1 = Err e →
        ∃ c, e = UnknownWarehouse c ∧ ¬ hasWarehouse d c ∧
             ((c = "RAW_WH") ∨
              (c = "GAL_WH" ∧ hasWarehouse d "RAW_WH") ∨
              (c = "FG_WH" ∧ hasWarehouse d "RAW_WH" ∧ hasWarehouse d "GAL_WH"))).
Proof.
  destruct (inventorySummary cmp d) as [r d'] eqn:Hrun.
  pose proof (inventorySummary_cases cmp d r d' Hrun) as [-> Hcases].
  split; [done|]. split; [split|].
  - intros [s Hs]. simpl in Hs. by subst r.
  - intros (H1 & H2 & H3). rewrite inventorySummary_Ok in Hrun by done.
    injection Hrun as <-. by eexists.
  - intros e He. simpl in He. subst r.
    destruct Hcases as (c & -> & Hnone & Hfirst). exists c.
    split; [done|]. split; [|done].
    unfold hasWarehouse. rewrite Hnone. by intros [? ?].
Qed.


(** ** The objects of the families *)

Lemma gallonSizes_5 : 5 ∈ gallonSizes.
Proof. unfold gallonSizes. rewrite !elem_of_cons. tauto. Qed.

Lemma gallonSizes_10 : 10 ∈ gallonSizes.
Proof. unfold gallonSizes. rewrite !elem_of_cons. tauto. Qed.

Lemma gallonSizes_20 : 20 ∈ gallonSizes.
Proof. unfold gallonSizes. rewrite !elem_of_cons. tauto. Qed.

Lemma familyCodes_inj F F' code :
  code ∈ familyCodes F → code ∈ familyCodes F' → F = F'.
Proof.
  pose proof gallonSizes_5 as H5. pose proof gallonSizes_10 as H10.
  pose proof gallonSizes_20 as H20.
  unfold familyCodes. rewrite !elem_of_cons, !elem_of_nil.
  intros [->|[->|[->|[->|[]]]]] [H|[H|[H|[H|[]]]]];
    first [ by apply litersCode_inj
          | by apply packCode_inj in H as [? _]
          | exfalso; by apply packCode_litersCode in H
          | exfalso; symmetry in H; by apply packCode_litersCode in H ].
Qed.

Lemma endsWith_family F t code :
  t ∈ ["_PACK_5"; "_PACK_10"; "_PACK_20"; "_LITERS"] →
  code ∈ familyCodes F →
  endsWith t code = bool_decide (code = F +:+ t).
Proof.
  intros Ht Hcode. destruct (endsWith t code) eqn:Hends; symmetry.
  - apply bool_decide_eq_true. apply endsWith_spec in Hends as [x ->].
    f_equal. apply (familyCodes_inj x F (x +:+ t)); [|done].
    apply familyCodes_spec. by exists t.
  - apply bool_decide_eq_false. intros ->.
    assert (endsWith t (F +:+ t) = true) by (apply endsWith_spec; by exists F).
    congruence.
Qed.

Lemma setFields_code code q o : ps_code (setFields code q o) = ps_code o.
Proof.
  unfold setFields.
  by destruct (endsWith "_LITERS" code), (endsWith "_PACK_5" code),
    (endsWith "_PACK_10" code), (endsWith "_PACK_20" code).
Qed.

(** With the code of a row of the family, the four assignments write the
    one field of that code. *)
Lemma setFields_family F code q o :
  code ∈ familyCodes F →
  setFields code q o
  = mkProductSummary (ps_code o)
      (if bool_decide (code = litersCode F) then q else ps_liters o)
      (if bool_decide (code = packCode F 5) then q else ps_pack5 o)
      (if bool_decide (code = packCode F 10) then q else ps_pack10 o)
      (if bool_decide (code = packCode F 20) then q else ps_pack20 o).
Proof.
  intros Hcode. unfold setFields.
  rewrite !(endsWith_family F) by (done || rewrite !elem_of_cons; tauto).
  change (F +:+ "_LITERS") with (litersCode F).
  change (F +:+ "_PACK_5") with (packCode F 5).
  change (F +:+ "_PACK_10") with (packCode F 10).
  change (F +:+ "_PACK_20") with (packCode F 20).
  destruct o.
  by destruct (bool_decide (code = litersCode F)),
    (bool_decide (code = packCode F 5)), (bool_decide (code = packCode F 10)),
    (bool_decide (code = packCode F 20)).
Qed.

Lemma familyObject_Some F m o :
  familyObject F m = Some o → o ∈ m ∧ ps_code o = F.
Proof. intros Ho. by apply head_filter_elem in Ho. Qed.

Lemma familyObject_is_Some F m :
  F ∈ ps_code <$> m → is_Some (familyObject F m).
Proof.
  intros (o & -> & Hin)%list_elem_of_fmap.
  by apply (head_filter_is_Some _ m o).
Qed.

Lemma familyObject_elem m o :
  NoDup (ps_code <$> m) → o ∈ m → familyObject (ps_code o) m = Some o.
Proof.
  intros Hnd Hin.
  destruct (familyObject_is_Some (ps_code o) m) as [o' Ho'];
    [apply list_elem_of_fmap; by exists o|].
  rewrite Ho'. apply familyObject_Some in Ho' as [Hin' Hcode].
  f_equal. apply list_elem_of_lookup in Hin as [i Hi], Hin' as [j Hj].
  assert (i = j) as ->; [|congruence].
  apply (NoDup_lookup _ i j (ps_code o) Hnd).
  - by rewrite list_lookup_fmap, Hi.
  - rewrite list_lookup_fmap, Hj. simpl. by f_equal.
Qed.

Lemma familyObject_fmap F (f : productSummary → productSummary) m :
  (∀ o, ps_code (f o) = ps_code o) →
  familyObject F (f <$> m) = f <$> familyObject F m.
Proof.
  intros Hcode. unfold familyObject. induction m as [|o m IH]; [done|].
  rewrite fmap_cons, !filter_cons, Hcode.
  by destruct (decide (ps_code o = F)).
Qed.

Lemma familyObject_snoc F m o' :
  familyObject F (m ++ [o'])
  = match familyObject F m with
    | Some o => Some o
    | None => if decide (ps_code o' = F) then Some o' else None
    end.
Proof.
  unfold familyObject. rewrite filter_app, head_app.
  destruct (head (filter (λ o, ps_code o = F) m)); [done|].
  rewrite (list.filter_singleton _ o' []).
  by destruct (decide (ps_code o' = F)).
Qed.

Lemma mapHas_spec F m : mapHas F m = true ↔ F ∈ ps_code <$> m.
Proof.
  unfold mapHas. induction m as [|o m IH].
  - simpl. split; [done|]. by intros ?%elem_of_nil.
  - cbn [existsb]. rewrite fmap_cons, elem_of_cons, orb_true_iff, IH, String.eqb_eq.
    split; intros [?|?]; auto.
Qed.

Lemma codes_summaryRow acc r :
  ps_code <$> products (summaryRow acc r)
  = if String.eqb (row_warehouse r) "FG_WH" then
      match matchFamily (row_code r) with
      | None => ps_code <$> products acc
      | Some F => if mapHas F (products acc) then ps_code <$> products acc
                  else (ps_code <$> products acc) ++ [F]
      end
    else ps_code <$> products acc.
Proof.
  rewrite products_summaryRow.
  destruct (String.eqb (row_warehouse r) "FG_WH"); [|done].
  destruct (matchFamily (row_code r)) as [F|]; [|done].
  rewrite <- list_fmap_compose.
  rewrite (list_fmap_ext _ ps_code).
  - destruct (mapHas F (products acc)); [done|]. by rewrite fmap_app.
  - intros i o _. simpl.
    destruct (String.eqb (ps_code o) F); [apply setFields_code|done].
Qed.

(** The loop makes one object for each family that has a row in FG_WH. *)
Lemma codes_foldl rows :
  NoDup (ps_code <$> products (foldl summaryRow emptySummary rows)) ∧
  ∀ F, F ∈ ps_code <$> products (foldl summaryRow emptySummary rows) ↔
       ∃ r, r ∈ rows ∧ row_warehouse r = "FG_WH" ∧
            matchFamily (row_code r) = Some F.
Proof.
  induction rows as [|r l [IHnd IHin]] using rev_ind.
  - split; [constructor|]. intros F. split.
    + by intros ?%elem_of_nil.
    + by intros (r & ?%elem_of_nil & _).
  - rewrite foldl_app. cbn [foldl]. rewrite codes_summaryRow.
    assert (∀ F, (∃ r', r' ∈ l ++ [r] ∧ row_warehouse r' = "FG_WH" ∧
                        matchFamily (row_code r') = Some F)
                 ↔ (F ∈ ps_code <$> products (foldl summaryRow emptySummary l)) ∨
                   (row_warehouse r = "FG_WH" ∧ matchFamily (row_code r) = Some F))
      as Hsplit.
    { intros F. rewrite IHin. split.
      - intros (r' & [Hin|Hin]%elem_of_app & Hwh & Hm).
        + left. by exists r'.
        + apply list_elem_of_singleton in Hin as ->. by right.
      - intros [(r' & Hin & Hwh & Hm)|[Hwh Hm]].
        + exists r'. split; [|done]. apply elem_of_app. by left.
        + exists r. split; [|done]. apply elem_of_app. right.
          apply list_elem_of_here. }
    destruct (String.eqb (row_warehouse r) "FG_WH") eqn:Hwh.
    2:{ apply String.eqb_neq in Hwh. split; [done|]. intros F.
        rewrite Hsplit. split; [by left|]. by intros [?|[? _]]. }
    apply String.eqb_eq in Hwh.
    destruct (matchFamily (row_code r)) as [F'|] eqn:Hm.
    2:{ split; [done|]. intros F. rewrite Hsplit.
        split; [by left|]. by intros [?|[_ ?]]. }
    destruct (mapHas F' (products (foldl summaryRow emptySummary l))) eqn:Hhas.
    + apply mapHas_spec in Hhas. split; [done|]. intros F. rewrite Hsplit.
      split; [by left|]. intros [?|[_ [= <-]]]; done.
    + assert (F' ∉ ps_code <$> products (foldl summaryRow emptySummary l)) as Hnew.
      { intros Hin%mapHas_spec. congruence. }
      split.
      * apply NoDup_app. split; [done|]. split; [|apply NoDup_singleton].
        intros F Hin Hin'. apply list_elem_of_singleton in Hin' as ->. done.
      * intros F. rewrite Hsplit, elem_of_app, list_elem_of_singleton.
        split; intros [?|?]; auto.
        -- right. by subst.
        -- right. destruct H as [_ [= <-]]. done.
Qed.

(** A field of the object of a family is written by the row of its
    product code only. *)
Lemma fieldFor_summaryRow F (proj : productSummary → Q) c acc r :
  validFamily F → c ∈ familyCodes F →
  (∀ F', proj (mkProductSummary F' 0 0 0 0) = 0%Q) →
  (∀ code q o, code ∈ familyCodes F →
               proj (setFields code q o) = if bool_decide (code = c) then q else proj o) →
  fieldFor F proj (summaryRow acc r)
  = if String.eqb (row_warehouse r) "FG_WH" && String.eqb (row_code r) c
    then row_qty r else fieldFor F proj acc.
Proof.
  intros Hvalid Hc Hdefault Hset. unfold fieldFor. rewrite products_summaryRow.
  destruct (String.eqb (row_warehouse r) "FG_WH"); [|done]. cbn [andb].
  destruct (matchFamily (row_code r)) as [F'|] eqn:Hm.
  2:{ destruct (String.eqb (row_code r) c) eqn:Hcode; [|done].
      apply String.eqb_eq in Hcode. rewrite Hcode in Hm.
      by rewrite (matchFamily_family c F) in Hm. }
  apply matchFamily_Some in Hm as [Hvalid' Hcode'].
  rewrite familyObject_fmap
    by (intros o; destruct (String.eqb (ps_code o) F'); [apply setFields_code|done]).
  destruct (decide (F' = F)) as [->|Hne].
  - assert (∃ o, familyObject F
                   (if mapHas F (products acc) then products acc
                    else products acc ++ [mkProductSummary F 0 0 0 0]) = Some o ∧
                 proj o = from_option proj 0%Q (familyObject F (products acc)))
      as (o & Ho & Hproj).
    { destruct (mapHas F (products acc)) eqn:Hhas.
      - apply mapHas_spec, familyObject_is_Some in Hhas as [o Ho].
        exists o. by rewrite Ho.
      - rewrite familyObject_snoc.
        destruct (familyObject F (products acc)) as [o|] eqn:Ho.
        + apply familyObject_Some in Ho as [Hin Hcode].
          assert (mapHas F (products acc) = true); [|congruence].
          apply mapHas_spec, list_elem_of_fmap. by exists o.
        + rewrite decide_True by done. eexists. split; [done|]. apply Hdefault. }
    rewrite Ho. simpl. apply familyObject_Some in Ho as [_ Hcode].
    rewrite Hcode, String.eqb_refl, Hset, Hproj by done.
    destruct (String.eqb (row_code r) c) eqn:Heq.
    + apply String.eqb_eq in Heq. by rewrite bool_decide_eq_true_2.
    + apply String.eqb_neq in Heq. by rewrite bool_decide_eq_false_2.
  - assert (String.eqb (row_code r) c = false) as ->.
    { apply String.eqb_neq. intros Heq. apply Hne.
      apply (familyCodes_inj F' F c); [by rewrite <- Heq|done]. }
    assert (familyObject F
              (if mapHas F' (products acc) then products acc
               else products acc ++ [mkProductSummary F' 0 0 0 0])
            = familyObject F (products acc)) as ->.
    { destruct (mapHas F' (products acc)); [done|].
      rewrite familyObject_snoc.
      destruct (familyObject F (products acc)); [done|].
      by rewrite decide_False. }
    destruct (familyObject F (products acc)) as [o|] eqn:Ho; [|done]. simpl.
    apply familyObject_Some in Ho as [_ Hcode].
    assert (String.eqb (ps_code o) F' = false) as ->; [|done].
    apply String.eqb_neq. congruence.
Qed.

Lemma fieldFor_foldl F (proj : productSummary → Q) c rows :
  validFamily F → c ∈ familyCodes F →
  (∀ F', proj (mkProductSummary F' 0 0 0 0) = 0%Q) →
  (∀ code q o, code ∈ familyCodes F →
               proj (setFields code q o) = if bool_decide (code = c) then q else proj o) →
  NoDup (rowKey <$> rows) →
  fieldFor F proj (foldl summaryRow emptySummary rows)
  = from_option row_qty 0%Q (rowOf rows "FG_WH" c).
Proof.
  intros Hvalid Hc Hdefault Hset Hnd.
  rewrite (foldl_slot (fieldFor F proj)
             (λ r, String.eqb (row_warehouse r) "FG_WH" && String.eqb (row_code r) c)
             row_qty "FG_WH" c).
  - destruct (rowOf rows "FG_WH" c) as [r|] eqn:Hrow; [|done].
    apply rowOf_Some in Hrow as [_ [= Hwh Hcode]].
    apply String.eqb_eq in Hwh, Hcode. by rewrite Hwh, Hcode.
  - intros acc r. by apply fieldFor_summaryRow.
  - intros r [Hwh Hcode]%andb_true_iff.
    apply String.eqb_eq in Hwh, Hcode. unfold rowKey. congruence.
  - done.
Qed.

Lemma rowOf_fgQty d c :
  wellFormed d →
  from_option row_qty 0%Q (rowOf (inventoryFindMany d) "FG_WH" c) = fgQty d c.
Proof.
  intros Hwf. unfold fgQty, currentQty.
  destruct (warehouse_tbl d !! "FG_WH") as [w|] eqn:Hw;
    [|rewrite rowOf_unknown; [done|by left]].
  destruct (product_tbl d !! c) as [p|] eqn:Hp;
    [|rewrite rowOf_unknown; [done|by right]].
  rewrite (rowOf_inventory d "FG_WH" w c p) by done.
  by destruct (inventory_tbl d !! (wh_id w, p_id p)).
Qed.

Lemma insertByCode_Permutation cmp x l : insertByCode cmp x l ≡ₚ x :: l.
Proof.
  induction l as [|y l IH]; simpl; [done|].
  destruct (cmp (ps_code x) (ps_code y) <=? 0); [done|].
  rewrite IH. apply Permutation_swap.
Qed.

Lemma sortByCode_Permutation cmp l : sortByCode cmp l ≡ₚ l.
Proof.
  unfold sortByCode. induction l as [|x l IH]; simpl; [done|].
  by rewrite insertByCode_Permutation, IH.
Qed.

(** X21. In a well-formed store with the three warehouses, the summary
    lists under [products] one object for each family that has an inventory
    row in FG_WH under one of its four product codes and whose code is a
    non-empty word of capital letters and digits, and no other; the object
    shows the FG_WH quantity of [F_LITERS] and of the three [F_PACK_s], 0 for
    a code without a row.  A family whose code has another character is
    never listed, whatever it has in stock. *)
Theorem summary_products cmp d s :
  wellFormed d →
  (inventorySummary cmp d).1 = Ok s →
  NoDup (ps_code <$> products s) ∧
  (∀ F, F ∈ ps_code <$> products s ↔
        validFamily F ∧ ∃ c, c ∈ familyCodes F ∧ stocked d "FG_WH" c) ∧
  (∀ o, o ∈ products s →
        ps_liters o = fgQty d (litersCode (ps_code o)) ∧
        ps_pack5 o = fgQty d (packCode (ps_code o) 5) ∧
        ps_pack10 o = fgQty d (packCode (ps_code o) 10) ∧
        ps_pack20 o = fgQty d (packCode (ps_code o) 20)).
Proof.
  intros Hwf Hrun.
  destruct (inventorySummary cmp d) as [r d'] eqn:Hcase. simpl in Hrun. subst r.
  pose proof (inventorySummary_cases cmp d _ _ Hcase) as [-> (Hraw & Hgal & Hfg)].
  rewrite inventorySummary_Ok in Hcase by done. injection Hcase as <-.
  cbn [products].
  pose proof (inventoryFindMany_NoDup d) as Hnd.
  destruct (codes_foldl (inventoryFindMany d)) as [Hcodes Hfam].
  set (acc := foldl summaryRow emptySummary (inventoryFindMany d)) in *.
  pose proof (sortByCode_Permutation cmp (products acc)) as Hperm.
  split; [by rewrite Hperm|]. split.
  - intros F. rewrite Hperm, Hfam. split.
    + intros (r & Hin & Hwh & Hm). apply matchFamily_Some in Hm as [Hvalid Hc].
      split; [done|]. exists (row_code r). split; [done|].
      apply inventoryFindMany_elem in Hin as (w & p & Hw & Hp & _ & Hinv).
      rewrite Hwh in Hw. exists w, p. by rewrite Hinv.
    + intros (Hvalid & c & Hc & w & p & Hw & Hp & [q Hinv]).
      exists (mkInventoryRow "FG_WH" c (p_type p) q).
      split; [by apply (inventoryFindMany_row d "FG_WH" w c p q)|].
      split; [done|]. by apply matchFamily_family.
  - intros o Hin. rewrite Hperm in Hin.
    assert (validFamily (ps_code o)) as Hvalid.
    { assert (ps_code o ∈ ps_code <$> products acc) as Hcode
        by (apply list_elem_of_fmap; by exists o).
      destruct (proj1 (Hfam _) Hcode) as (r & _ & _ & Hm).
      by apply matchFamily_Some in Hm as [? _]. }
    pose proof (familyObject_elem _ o Hcodes Hin) as Ho.
    assert (∀ (proj : productSummary → Q) c,
              c ∈ familyCodes (ps_code o) →
              (∀ F', proj (mkProductSummary F' 0 0 0 0) = 0%Q) →
              (∀ code q o', code ∈ familyCodes (ps_code o) →
                 proj (setFields code q o')
                 = if bool_decide (code = c) then q else proj o') →
              proj o = fgQty d c) as Hfield.
    { intros proj c Hc Hdefault Hset.
      rewrite <- rowOf_fgQty by done.
      rewrite <- (fieldFor_foldl (ps_code o) proj c) by done.
      fold acc. unfold fieldFor. by rewrite Ho. }
    unfold familyCodes in Hfield.
    split; [|split; [|split]]; apply Hfield;
      try (rewrite !elem_of_cons; tauto); try done;
      intros code q o' Hcode; by rewrite (setFields_family (ps_code o)).
Qed.


Lemma summary_products_witness :
  ∃ s, (inventorySummary codeCompare packedStore).1 = Ok s ∧
       NoDup (ps_code <$> products s) ∧
       (∀ F, F ∈ ps_code <$> products s ↔
             validFamily F ∧ ∃ c, c ∈ familyCodes F ∧ stocked packedStore "FG_WH" c) ∧
       (∀ o, o ∈ products s →
             ps_liters o = fgQty packedStore (litersCode (ps_code o)) ∧
             ps_pack5 o = fgQty packedStore (packCode (ps_code o) 5) ∧
             ps_pack10 o = fgQty packedStore (packCode (ps_code o) 10) ∧
             ps_pack20 o = fgQty packedStore (packCode (ps_code o) 20)).
Proof.
  assert ({s | (inventorySummary codeCompare packedStore).1 = Ok s}) as [s Hs]
    by (eexists; vm_compute; reflexivity).
  exists s. split; [exact Hs|].
  exact (summary_products codeCompare packedStore s wellFormed_packedStore Hs).
Defined.

(** * Properties of the seed script *)

Lemma alertRule_upsert_rules wh c q d :
  ∃ d', alertRule_upsert wh c q d = (Ok tt, d') ∧
        warehouse_tbl d' = warehouse_tbl d ∧ product_tbl d' = product_tbl d ∧
        formulaPerLiter_tbl d' = formulaPerLiter_tbl d ∧
        inventory_tbl d' = inventory_tbl d ∧
        inventoryTx_tbl d' = inventoryTx_tbl d ∧
        (∀ r, r ∈ alertRule_tbl d' →
              (r_warehouseCode r = wh ∧ r_productCode r = c ∧ r_minQty r = q) ∨
              (r ∈ alertRule_tbl d ∧ ¬ (r_warehouseCode r = wh ∧ r_productCode r = c))) ∧
        (∃ r, r ∈ alertRule_tbl d' ∧ r_warehouseCode r = wh ∧ r_productCode r = c) ∧
        (∀ r, r ∈ alertRule_tbl d →
              ∃ r', r' ∈ alertRule_tbl d' ∧
                    r_warehouseCode r' = r_warehouseCode r ∧
                    r_productCode r' = r_productCode r).
Proof.
  eexists. split; [reflexivity|]. cbn [warehouse_tbl product_tbl formulaPerLiter_tbl
    inventory_tbl inventoryTx_tbl alertRule_tbl].
  do 5 (split; [done|]).
  set (hit := λ r : alertRule,
         String.eqb (r_warehouseCode r) wh && String.eqb (r_productCode r) c).
  assert (∀ r, hit r = true ↔ r_warehouseCode r = wh ∧ r_productCode r = c) as Hhit.
  { intros r. unfold hit. by rewrite andb_true_iff, !String.eqb_eq. }
  destruct (existsb hit (alertRule_tbl d)) eqn:Hex.
  - split; [|split].
    + intros r (r0 & -> & Hin)%list_elem_of_fmap. fold (hit r0).
      destruct (hit r0) eqn:Hr0.
      * left. apply Hhit in Hr0 as [? ?]. by simpl.
      * right. split; [done|]. rewrite <- Hhit. congruence.
    + apply existsb_exists in Hex as (r0 & Hin & Hr0).
      apply list_elem_of_In in Hin.
      exists (mkAlertRule (r_warehouseCode r0) (r_productCode r0) q).
      split; [|by apply Hhit in Hr0].
      apply list_elem_of_fmap. exists r0. fold (hit r0). by rewrite Hr0.
    + intros r Hin.
      exists (if hit r then mkAlertRule (r_warehouseCode r) (r_productCode r) q else r).
      split; [apply list_elem_of_fmap; by exists r|].
      by destruct (hit r).
  - split; [|split].
    + intros r [Hin|Hin]%elem_of_app.
      * right. split; [done|]. rewrite <- Hhit. intros Hr.
        assert (existsb hit (alertRule_tbl d) = true); [|congruence].
        apply existsb_exists. exists r. split; [by apply list_elem_of_In|done].
      * apply list_elem_of_singleton in Hin as ->. by left.
    + exists (mkAlertRule wh c q). split; [|done].
      apply elem_of_app. right. apply list_elem_of_here.
    + intros r Hin. exists r. split; [|done]. apply elem_of_app. by left.
Qed.

Lemma forEach_upsert_rules wh q codes d :
  ∃ d', forEach (λ code, alertRule_upsert wh code q) codes d = (Ok tt, d') ∧
        warehouse_tbl d' = warehouse_tbl d ∧ product_tbl d' = product_tbl d ∧
        formulaPerLiter_tbl d' = formulaPerLiter_tbl d ∧
        inventory_tbl d' = inventory_tbl d ∧
        inventoryTx_tbl d' = inventoryTx_tbl d ∧
        (∀ r, r ∈ alertRule_tbl d' →
              (r_warehouseCode r = wh ∧ r_productCode r ∈ codes ∧ r_minQty r = q) ∨
              (r ∈ alertRule_tbl d ∧
               ¬ (r_warehouseCode r = wh ∧ r_productCode r ∈ codes))) ∧
        (∀ c, c ∈ codes →
              ∃ r, r ∈ alertRule_tbl d' ∧ r_warehouseCode r = wh ∧ r_productCode r = c) ∧
        (∀ r, r ∈ alertRule_tbl d →
              ∃ r', r' ∈ alertRule_tbl d' ∧
                    r_warehouseCode r' = r_warehouseCode r ∧
                    r_productCode r' = r_productCode r).
Proof.
  revert d. induction codes as [|c rest IH]; intros d.
  - exists d. split; [done|]. do 5 (split; [done|]). split; [|split].
    + intros r Hin. right. split; [done|]. by intros [_ ?%elem_of_nil].
    + by intros c ?%elem_of_nil.
    + intros r Hin. by exists r.
  - destruct (alertRule_upsert_rules wh c q d)
      as (d1 & Hrun1 & Hw1 & Hp1 & Hf1 & Hi1 & Ht1 & Hrules1 & Hnew1 & Hkeep1).
    destruct (IH d1)
      as (d' & Hrun & Hw & Hp & Hf & Hi & Ht & Hrules & Hnew & Hkeep).
    exists d'. split.
    { cbn [forEach]. by rewrite (bind_Ok _ _ d tt d1 Hrun1). }
    do 5 (split; [congruence|]). split; [|split].
    + intros r Hin. destruct (Hrules r Hin) as [(? & ? & ?)|[Hin1 Hother]].
      * left. split; [done|]. split; [by apply list_elem_of_further|done].
      * destruct (Hrules1 r Hin1) as [(? & ? & ?)|[Hin0 Hother0]].
        -- left. split; [done|]. split; [|done]. subst c. apply list_elem_of_here.
        -- right. split; [done|]. intros [Hwh [Hc|Hc]%elem_of_cons]; tauto.
    + intros c' [->|Hc]%elem_of_cons; [|by apply Hnew].
      destruct Hnew1 as (r1 & Hin1 & Hwh1 & Hc1).
      destruct (Hkeep r1 Hin1) as (r' & ? & ? & ?). exists r'.
      split; [done|]. split; congruence.
    + intros r Hin. destruct (Hkeep1 r Hin) as (r1 & Hin1 & ? & ?).
      destruct (Hkeep r1 Hin1) as (r' & ? & ? & ?). exists r'.
      split; [done|]. split; congruence.
Qed.

Lemma forEach_setInv wh q codes d d' :
  forEach (λ code, setInv wh code q) codes d = (Ok tt, d') →
  warehouse_tbl d' = warehouse_tbl d ∧ product_tbl d' = product_tbl d ∧
  formulaPerLiter_tbl d' = formulaPerLiter_tbl d ∧
  alertRule_tbl d' = alertRule_tbl d ∧
  inventoryTx_tbl d' = inventoryTx_tbl d ∧
  (∀ k, inventory_tbl d' !! k = Some q ∨
        inventory_tbl d' !! k = inventory_tbl d !! k) ∧
  (∀ w k, warehouse_tbl d !! wh = Some w → k.1 ≠ wh_id w →
          inventory_tbl d' !! k = inventory_tbl d !! k) ∧
  (∀ c, c ∈ codes →
        ∃ w p, warehouse_tbl d !! wh = Some w ∧ product_tbl d !! c = Some p ∧
               inventory_tbl d' !! (wh_id w, p_id p) = Some q).
Proof.
  revert d. induction codes as [|c rest IH]; intros d.
  - intros [= <-]. do 5 (split; [done|]). split; [by right|]. split; [done|].
    by intros c ?%elem_of_nil.
  - cbn [forEach].
    destruct (setInv wh c q d) as [[[]|e] d1] eqn:Hstep;
      [|by rewrite (bind_Err _ _ d e d1 Hstep)].
    rewrite (bind_Ok _ _ d tt d1 Hstep). unfold setInv in Hstep.
    destruct (warehouse_tbl d !! wh) as [w|] eqn:Hw; [|done].
    destruct (product_tbl d !! c) as [p|] eqn:Hp; [|done].
    injection Hstep as <-.
    intros Hrun. apply IH in Hrun
      as (Hw' & Hp' & Hf' & Hr' & Ht' & Hset & Hframe & Hcodes).
    cbn [warehouse_tbl product_tbl formulaPerLiter_tbl alertRule_tbl
         inventory_tbl inventoryTx_tbl] in *.
    do 5 (split; [done|]). split; [|split].
    + intros k. destruct (Hset k) as [?|Hk]; [by left|].
      rewrite Hk. destruct (decide (k = (wh_id w, p_id p))) as [->|Hne].
      * left. apply lookup_insert_eq.
      * right. by apply lookup_insert_ne.
    + intros w0 k [= <-] Hk. rewrite (Hframe w k Hw Hk).
      apply lookup_insert_ne. intros <-. by apply Hk.
    + intros c' [->|Hc']%elem_of_cons.
      2:{ destruct (Hcodes c' Hc') as (w0 & p0 & ? & ? & ?). exists w0, p0.
          split; [congruence|done]. }
      exists w, p. split; [done|]. split; [done|].
      destruct (Hset (wh_id w, p_id p)) as [?|Hk]; [done|].
      rewrite Hk. apply lookup_insert_eq.
Qed.

Lemma concat_all_nil {A B : Type} (f : A → list B) (l : list A) :
  (∀ x, x ∈ l → f x = []) → concat (f <$> l) = [].
Proof.
  induction l as [|x l IH]; intros Hnil; [done|].
  rewrite fmap_cons. cbn [concat].
  rewrite (Hnil x) by apply list_elem_of_here.
  apply IH. intros y Hy. apply Hnil. by apply list_elem_of_further.
Qed.

(** X22. Steps 6 and 7 of the seed, run on a well-formed store, leave the
    catalog and the ledger as they were and no active alert on what they
    seed: every rule of RAW_WH for S, P, U, C, N and of GAL_WH for the three
    gallons exists afterwards, its warehouse and product are found, the
    balance of the pair equals the threshold of the rule, and since the
    evaluator reports only balances strictly below the threshold, such a
    rule reports nothing.  On a store that had no alert rule,
    [GET /alerts/active] then answers with the empty list. *)
Theorem seed_raises_no_alert d d' :
  wellFormed d →
  seedAlertsAndInventory d = (Ok tt, d') →
  warehouse_tbl d' = warehouse_tbl d ∧ product_tbl d' = product_tbl d ∧
  formulaPerLiter_tbl d' = formulaPerLiter_tbl d ∧
  inventoryTx_tbl d' = inventoryTx_tbl d ∧
  (∀ r, seeded r →
        ∃ r', r' ∈ alertRule_tbl d' ∧
              r_warehouseCode r' = r_warehouseCode r ∧
              r_productCode r' = r_productCode r) ∧
  (∀ r, r ∈ alertRule_tbl d' → seeded r →
        ∃ w p, warehouse_tbl d' !! r_warehouseCode r = Some w ∧
               product_tbl d' !! r_productCode r = Some p ∧
               inventory_tbl d' !! (wh_id w, p_id p) = Some (r_minQty r) ∧
               ruleAlerts d' r = []) ∧
  (alertRule_tbl d = [] → alertsActive d' = (Ok [], d')).
Proof.
  intros Hwf. unfold seedAlertsAndInventory.
  destruct (forEach_upsert_rules "RAW_WH" (10000 # 1) ["S"; "P"; "U"; "C"; "N"] d)
    as (d1 & Hrun1 & Hw1 & Hp1 & Hf1 & Hi1 & Ht1 & Hrules1 & Hnew1 & _).
  rewrite (bind_Ok _ _ d tt d1 Hrun1).
  destruct (forEach_upsert_rules "GAL_WH" (2000 # 1)
              ["GALLON_5"; "GALLON_10"; "GALLON_20"] d1)
    as (d2 & Hrun2 & Hw2 & Hp2 & Hf2 & Hi2 & Ht2 & Hrules2 & Hnew2 & Hkeep2).
  rewrite (bind_Ok _ _ d1 tt d2 Hrun2).
  destruct (forEach (λ code, setInv "RAW_WH" code (10000 # 1))
              ["S"; "P"; "U"; "C"; "N"] d2) as [[[]|e] d3] eqn:Hrun3;
    [|by rewrite (bind_Err _ _ d2 e d3 Hrun3)].
  rewrite (bind_Ok _ _ d2 tt d3 Hrun3). intros Hrun4.
  apply forEach_setInv in Hrun3
    as (Hw3 & Hp3 & Hf3 & Hr3 & Ht3 & _ & _ & Hraw).
  apply forEach_setInv in Hrun4
    as (Hw4 & Hp4 & Hf4 & Hr4 & Ht4 & _ & Hframe & Hgal).
  assert (warehouse_tbl d' = warehouse_tbl d) as Hw by congruence.
  assert (product_tbl d' = product_tbl d) as Hp by congruence.
  assert (alertRule_tbl d' = alertRule_tbl d2) as Hr by congruence.
  do 2 (split; [done|]). do 2 (split; [congruence|]).
  assert (∀ r, r ∈ alertRule_tbl d' → seeded r →
            ∃ w p, warehouse_tbl d' !! r_warehouseCode r = Some w ∧
                   product_tbl d' !! r_productCode r = Some p ∧
                   inventory_tbl d' !! (wh_id w, p_id p) = Some (r_minQty r) ∧
                   ruleAlerts d' r = []) as Hquiet.
  { intros r Hin Hseeded. rewrite Hr in Hin.
    assert (∃ w p, warehouse_tbl d' !! r_warehouseCode r = Some w ∧
                   product_tbl d' !! r_productCode r = Some p ∧
                   inventory_tbl d' !! (wh_id w, p_id p) = Some (r_minQty r))
      as (w & p & Hwh & Hpr & Hinv).
    { destruct Hseeded as [[Hwh Hc]|[Hwh Hc]].
      - assert (r_minQty r = (10000 # 1)%Q) as ->.
        { destruct (Hrules2 r Hin) as [(? & _)|[Hin1 _]]; [congruence|].
          destruct (Hrules1 r Hin1) as [(_ & _ & ?)|[_ Hother]]; tauto. }
        destruct (Hraw _ Hc) as (w & p & Hw2' & Hp2' & Hinv).
        exists w, p. rewrite Hwh.
        split; [congruence|]. split; [congruence|].
        destruct (Hgal "GALLON_5") as (wg & _ & Hwg & _); [apply list_elem_of_here|].
        rewrite (Hframe wg _ Hwg); [done|]. simpl. intros Hid.
        destruct Hwf as [Hids _].
        assert ("RAW_WH" = "GAL_WH"); [|done].
        apply (uniqueIds_inj wh_id (warehouse_tbl d) _ _ w wg);
          [done|congruence..].
      - assert (r_minQty r = (2000 # 1)%Q) as ->.
        { destruct (Hrules2 r Hin) as [(_ & _ & ?)|[_ Hother]]; tauto. }
        destruct (Hgal _ Hc) as (w & p & Hw3' & Hp3' & Hinv).
        exists w, p. rewrite Hwh.
        split; [congruence|]. split; [congruence|done]. }
    exists w, p. do 3 (split; [done|]).
    unfold ruleAlerts, currentQty. rewrite Hwh, Hpr, Hinv.
    assert (Qltb (r_minQty r) (r_minQty r) = false) as ->; [|done].
    apply Qltb_ge. lra. }
  split; [|split; [exact Hquiet|]].
  - intros r [[Hwh Hc]|[Hwh Hc]]; rewrite Hr.
    + destruct (Hnew1 _ Hc) as (r1 & Hin1 & ? & ?).
      destruct (Hkeep2 r1 Hin1) as (r' & ? & ? & ?). exists r'.
      split; [done|]. split; congruence.
    + destruct (Hnew2 _ Hc) as (r' & ? & ? & ?). exists r'.
      split; [done|]. split; congruence.
  - intros Hempty. unfold alertsActive. rewrite alertRules_run.
    rewrite concat_all_nil; [done|].
    intros r Hin. destruct (Hquiet r Hin) as (w & p & _ & _ & _ & Hnil); [|done].
    rewrite Hr in Hin.
    destruct (Hrules2 r Hin) as [(? & ? & _)|[Hin1 _]]; [by right|].
    destruct (Hrules1 r Hin1) as [(? & ? & _)|[Hin0 _]]; [by left|].
    rewrite Hempty in Hin0. by apply elem_of_nil in Hin0.
Qed.

Lemma wellFormed_freshStore : wellFormed freshStore.
Proof. refine (bool_decide_unpack (wellFormed freshStore) _). vm_compute. exact I. Defined.

Lemma seed_raises_no_alert_witness :
  ∃ d', seedAlertsAndInventory freshStore = (Ok tt, d') ∧
        alertsActive d' = (Ok [], d').
Proof.
  assert ({d' | seedAlertsAndInventory freshStore = (Ok tt, d')}) as [d' Hrun]
    by (eexists; vm_compute; reflexivity).
  exists d'. split; [exact Hrun|].
  destruct (seed_raises_no_alert freshStore d' wellFormed_freshStore Hrun)
    as (_ & _ & _ & _ & _ & _ & Hquiet).
  apply Hquiet. reflexivity.
Defined.
